(** * Verification of the EEG101 manifesto DOCX export/import scripts

    Shallow embedding of [export_docx.py], [import_docx.py] and
    [export_to_sheets.py].

    Text is modelled as [list ascii]: a Python [str] whose code points are all
    below 256, one [ascii] per code point (Latin-1 numbering).  Python's
    character predicates ([str.isspace], which is also the [\s] class of [re],
    and the [\w] class) are written out for these 256 code points.

    The regular expressions of the scripts are modelled one by one as
    matchers: a function from the remaining input to [option] of the groups and
    the input left after the match.  Every pattern used here is deterministic
    under Python's backtracking (each greedy run is followed by a character it
    cannot consume), except where noted at the matcher, where the backtracking
    order is written out. *)

From Stdlib Require Import String Ascii ZArith Lia.
From stdpp Require Import base list gmap strings.

Abbreviation str := (list ascii).

(** A Rocq string literal as a Python string. *)
Definition lit (s : string) : str := list_ascii_of_string s.
Arguments lit s%_string.

Definition dq : ascii := "034"%char.   (* the double quote character *)
Definition nl : ascii := "010"%char.   (* newline *)
Definition bslash : ascii := "092"%char.

(* ------------------------------------------------------------------ *)
(** ** Python string primitives *)

(** [str.isspace] / [re]'s [\s] on code points 0..255 *)
Definition is_space (c : ascii) : bool :=
  let n := N_of_ascii c in
  ((9 <=? n)%N && (n <=? 13)%N) || ((28 <=? n)%N && (n <=? 32)%N)
  || (n =? 133)%N || (n =? 160)%N.

(** [re]'s [\w] on code points 0..255 (alphanumerics in the sense of
    [str.isalnum], plus the underscore) *)
Definition is_word (c : ascii) : bool :=
  let n := N_of_ascii c in
  ((48 <=? n)%N && (n <=? 57)%N) || ((65 <=? n)%N && (n <=? 90)%N)
  || (n =? 95)%N || ((97 <=? n)%N && (n <=? 122)%N)
  || (n =? 170)%N || (n =? 178)%N || (n =? 179)%N || (n =? 181)%N
  || (n =? 185)%N || (n =? 186)%N || ((188 <=? n)%N && (n <=? 190)%N)
  || ((192 <=? n)%N && (n <=? 214)%N) || ((216 <=? n)%N && (n <=? 246)%N)
  || ((248 <=? n)%N && (n <=? 255)%N).

(** [str.lower] on code points 0..255 *)
Definition lower_char (c : ascii) : ascii :=
  let n := N_of_ascii c in
  if ((65 <=? n)%N && (n <=? 90)%N)
     || ((192 <=? n)%N && (n <=? 222)%N && negb (n =? 215)%N)
  then ascii_of_N (n + 32) else c.

Definition lower (s : str) : str := map lower_char s.

Definition is_char (c : ascii) (d : ascii) : bool := Ascii.eqb d c.
Definition not_char (c : ascii) (d : ascii) : bool := negb (Ascii.eqb d c).

Fixpoint takeWhile (p : ascii -> bool) (s : str) : str :=
  match s with
  | [] => []
  | c :: s' => if p c then c :: takeWhile p s' else []
  end.

Fixpoint dropWhile (p : ascii -> bool) (s : str) : str :=
  match s with
  | [] => []
  | c :: s' => if p c then dropWhile p s' else s
  end.

Fixpoint str_eqb (a b : str) : bool :=
  match a, b with
  | [], [] => true
  | c :: a', d :: b' => Ascii.eqb c d && str_eqb a' b'
  | _, _ => false
  end.

(** [s.startswith(p)] *)
Fixpoint startswith (s p : str) {struct p} : bool :=
  match p, s with
  | [], _ => true
  | c :: p', d :: s' => Ascii.eqb c d && startswith s' p'
  | _ :: _, [] => false
  end.

(** [s.endswith(p)] *)
Definition endswith (s p : str) : bool := startswith (rev s) (rev p).

(** [p in s] *)
Fixpoint contains (s p : str) : bool :=
  startswith s p || match s with [] => false | _ :: s' => contains s' p end.

(** [s.lstrip()], [s.rstrip()], [s.strip()], [s.lstrip(' ')] *)
Definition lstrip (s : str) : str := dropWhile is_space s.
Definition rstrip (s : str) : str := rev (dropWhile is_space (rev s)).
Definition strip (s : str) : str := rstrip (lstrip s).
Definition lstrip_spaces (s : str) : str := dropWhile (is_char " ") s.

(** truthiness of a string *)
Definition truthy (s : str) : bool := match s with [] => false | _ => true end.

(** [s.split(sep)] for a one-character separator *)
Fixpoint str_split (sep : ascii) (s : str) : list str :=
  match s with
  | [] => [[]]
  | c :: s' =>
      let r := str_split sep s' in
      if Ascii.eqb c sep then [] :: r
      else match r with
           | [] => [[c]]
           | w :: ws => (c :: w) :: ws
           end
  end.

(** [sep.join(l)] *)
Fixpoint str_join (sep : str) (l : list str) : str :=
  match l with
  | [] => []
  | [x] => x
  | x :: l' => x ++ sep ++ str_join sep l'
  end.

(** [s.replace(old, new)]; [old] is non-empty at every call site. *)
Fixpoint str_replace_aux (fuel : nat) (old new s : str) : str :=
  match fuel with
  | O => s
  | S fuel' =>
      match s with
      | [] => []
      | c :: s' =>
          if startswith s old
          then new ++ str_replace_aux fuel' old new (drop (length old) s)
          else c :: str_replace_aux fuel' old new s'
      end
  end.
Definition str_replace (old new s : str) : str :=
  str_replace_aux (length s) old new s.

(** [s.rfind(p)]: the last index where [p] occurs, or -1 *)
Fixpoint rfind_aux (s p : str) (i best : Z) : Z :=
  let best := if startswith s p then i else best in
  match s with
  | [] => best
  | _ :: s' => rfind_aux s' p (i + 1) best
  end.
Definition rfind (s p : str) : Z := rfind_aux s p 0 (-1).

(** Python slices [s[:i]] and [s[i:]], negative indices counting from the end *)
Definition py_index (s : str) (i : Z) : nat :=
  if (i <? 0)%Z then Z.to_nat (Z.max 0 (Z.of_nat (length s) + i)) else Z.to_nat i.
Definition slice_to (s : str) (i : Z) : str := take (py_index s i) s.
Definition slice_from (s : str) (i : Z) : str := drop (py_index s i) s.

(** [' ' * n] ([''] for [n <= 0]) *)
Definition spaces (n : Z) : str := repeat " "%char (Z.to_nat n).

(* ------------------------------------------------------------------ *)
(** ** Regular expressions: matchers and [re.sub] / [re.search] *)

(** A matcher reads a prefix of its input and returns the replacement text
    and the rest of the input. *)
Definition matcher := str -> option (str * str).

(** [re.sub(pattern, repl, s)] for a pattern that never matches the empty
    string: scan left to right, replace each match, resume after it. *)
Fixpoint re_sub_aux (fuel : nat) (m : matcher) (s : str) : str :=
  match fuel with
  | O => s
  | S fuel' =>
      match s with
      | [] => []
      | c :: s' =>
          match m s with
          | Some (r, rest) => r ++ re_sub_aux fuel' m rest
          | None => c :: re_sub_aux fuel' m s'
          end
      end
  end.
Definition re_sub (m : matcher) (s : str) : str := re_sub_aux (length s) m s.

(** [re.search(pattern, s)] is not [None] *)
Fixpoint re_search {A} (m : str -> option A) (s : str) : bool :=
  match m s with
  | Some _ => true
  | None => match s with [] => false | _ :: s' => re_search m s' end
  end.

(** matching one literal character, a literal string, and [[cls]+] *)
Definition expect (c : ascii) (s : str) : option str :=
  match s with
  | d :: s' => if Ascii.eqb c d then Some s' else None
  | [] => None
  end.

Fixpoint expects (p : str) (s : str) : option str :=
  match p with
  | [] => Some s
  | c :: p' => match expect c s with Some s' => expects p' s' | None => None end
  end.

Definition span1 (p : ascii -> bool) (s : str) : option (str * str) :=
  match takeWhile p s with
  | [] => None
  | x => Some (x, dropWhile p s)
  end.

(* ------------------------------------------------------------------ *)
(** ** The unit registry ([FILES] in both scripts) *)

Definition FILES : list str :=
  [lit "introduction.md"; lit "validity.md"; lit "democratization.md";
   lit "responsibility.md"; lit "conclusion.md"; lit "references.md"].

(** [filename in FILES] *)
Definition in_files (files : list str) (f : str) : bool := existsb (str_eqb f) files.

(** [filename.replace('.', '_')] *)
Definition safe_name (f : str) : str := str_replace (lit ".") (lit "_") f.

(** [filename.replace('.', '-').lower()] *)
Definition file_anchor (f : str) : str := lower (str_replace (lit ".") (lit "-") f).

(* ------------------------------------------------------------------ *)
(** ** export_docx.process_links *)

(** [(\s*\{ *#[^}]+\})]: returns the group text and the rest *)
Definition attr_re (s : str) : option (str * str) :=
  let ws := takeWhile is_space s in
  s1 ← expect "{" (dropWhile is_space s);
  let sp := takeWhile (is_char " ") s1 in
  s2 ← expect "#" (dropWhile (is_char " ") s1);
  '(x, s3) ← span1 (not_char "}") s2;
  rest ← expect "}" s3;
  Some (ws ++ "{"%char :: sp ++ "#"%char :: x ++ ["}"%char], rest).

(** [\[([^\]]+)\]\(([^)]+)\)(\s*\{ *#[^}]+\})?]: text, url, optional
    attribute group, rest.  The optional group is greedy: it is taken when it
    matches. *)
Definition link_re (s : str) : option (str * str * option str * str) :=
  s1 ← expect "[" s;
  '(text, s2) ← span1 (not_char "]") s1;
  s3 ← expects (lit "](") s2;
  '(url, s4) ← span1 (not_char ")") s3;
  s5 ← expect ")" s4;
  match attr_re s5 with
  | Some (a, rest) => Some (text, url, Some a, rest)
  | None => Some (text, url, None, s5)
  end.

(** [match.group(0)] of [link_re] *)
Definition link_group0 (text url : str) (attr : option str) : str :=
  "["%char :: text ++ lit "](" ++ url ++ [")"%char]
  ++ match attr with Some a => a | None => [] end.

(** the nested [replace_link] of [process_links] *)
Definition process_links_replace (files : list str) (current_file : str)
    (text0 url : str) (attr : option str) : str :=
  let text := match attr with
              | Some a => text0 ++ " "%char :: strip a
              | None => text0
              end in
  let fallback :=
    match attr with
    | Some _ => "["%char :: text ++ lit "](" ++ url ++ [")"%char]
    | None => link_group0 text0 url attr
    end in
  if contains url (lit ".md") && negb (startswith url (lit "http")) then
    let parts := str_split "#" url in
    let filename := match parts with p :: _ => p | [] => [] end in
    let anchor := match parts with _ :: a :: _ => Some a | _ => None end in
    if in_files files filename then
      if str_eqb filename current_file then
        match anchor with
        | Some ((_ :: _) as a) => "["%char :: text ++ lit "](#" ++ a ++ [")"%char]
        | _ => "["%char :: text ++ lit "](#" ++ file_anchor filename ++ [")"%char]
        end
      else
        let safe_filename := safe_name filename in
        match anchor with
        | Some ((_ :: _) as a) =>
            "["%char :: text ++ lit "](#" ++ safe_filename ++ lit "__" ++ a ++ [")"%char]
        | _ => "["%char :: text ++ lit "](#" ++ safe_filename ++ [")"%char]
        end
    else fallback
  else fallback.

Definition process_links_matcher (files : list str) (current_file : str) : matcher :=
  fun s =>
    '(text, url, attr, rest) ← link_re s;
    Some (process_links_replace files current_file text url attr, rest).

Definition process_links (files : list str) (content current_file : str) : str :=
  re_sub (process_links_matcher files current_file) content.

(* ------------------------------------------------------------------ *)
(** ** import_docx.restore_links *)

Definition anchor_char (c : ascii) : bool :=
  is_word c || Ascii.eqb c "." || Ascii.eqb c "-".

(** [\[([^\]]+)\]\(#([\w\.-]+)\)]: text, anchor, rest *)
Definition restore_link_re (s : str) : option (str * str * str) :=
  s1 ← expect "[" s;
  '(text, s2) ← span1 (not_char "]") s1;
  s3 ← expects (lit "](#") s2;
  '(anchor, s4) ← span1 anchor_char s3;
  rest ← expect ")" s4;
  Some (text, anchor, rest).

(** the [for filename in FILES] loop: target file and real anchor *)
Fixpoint find_target (files : list str) (anchor : str) : option (str * option str) :=
  match files with
  | [] => None
  | filename :: files' =>
      let safe_filename := safe_name filename in
      if str_eqb anchor safe_filename then Some (filename, None)
      else if startswith anchor (safe_filename ++ lit "__")
      then Some (filename, Some (drop (length safe_filename + 2) anchor))
      else find_target files' anchor
  end.

(** the nested [replace_link] of [restore_links] *)
Definition restore_links_replace (files : list str) (current_file : str)
    (text anchor : str) : str :=
  let group0 := "["%char :: text ++ lit "](#" ++ anchor ++ [")"%char] in
  match find_target files anchor with
  | Some (target_file, real_anchor) =>
      if truthy target_file then
        if str_eqb target_file current_file then
          match real_anchor with
          | Some ((_ :: _) as ra) => "["%char :: text ++ lit "](#" ++ ra ++ [")"%char]
          | _ => "["%char :: text ++ lit "](#)"
          end
        else
          match real_anchor with
          | Some ((_ :: _) as ra) =>
              "["%char :: text ++ lit "](" ++ target_file ++ "#"%char :: ra ++ [")"%char]
          | _ => "["%char :: text ++ lit "](" ++ target_file ++ [")"%char]
          end
      else group0
  | None => group0
  end.

Definition restore_links_matcher (files : list str) (current_file : str) : matcher :=
  fun s =>
    '(text, anchor, rest) ← restore_link_re s;
    Some (restore_links_replace files current_file text anchor, rest).

(** [restore_links(content_lines, anchor_map, current_file)]; the anchor map
    is not read by the function and is left out. *)
Definition restore_links (files : list str) (content_lines : list str)
    (current_file : str) : list str :=
  map (re_sub (restore_links_matcher files current_file)) content_lines.

(* ------------------------------------------------------------------ *)
(** ** import_docx.restore_attributes *)

(** the part of [\[(.*?) \{ *(#[^}]+) *\}\]\(([^)]+)\)] after the lazy
    text group: attribute group, url, rest.  [[^}]+] is greedy and the
    following [ *] then matches nothing, so group 2 keeps trailing spaces;
    shortening [[^}]+] leads to the same [\}] and the same failure. *)
Definition attr_tail_re (s : str) : option (str * str * str) :=
  s1 ← expects (lit " {") s;
  s2 ← expect "#" (dropWhile (is_char " ") s1);
  '(x, s3) ← span1 (not_char "}") s2;
  s4 ← expects (lit "}](") s3;
  '(url, s5) ← span1 (not_char ")") s4;
  rest ← expect ")" s5;
  Some ("#"%char :: x, url, rest).

(** the lazy [(.*?)]: the shortest text, not crossing a newline, after which
    the tail matches *)
Fixpoint lazy_text (s : str) : option (str * str * str * str) :=
  match attr_tail_re s with
  | Some (a, url, rest) => Some ([], a, url, rest)
  | None =>
      match s with
      | [] => None
      | c :: s' =>
          if Ascii.eqb c nl then None
          else match lazy_text s' with
               | Some (t, a, url, rest) => Some (c :: t, a, url, rest)
               | None => None
               end
      end
  end.

Definition restore_attr_matcher : matcher :=
  fun s =>
    s1 ← expect "[" s;
    '(text, attr, url, rest) ← lazy_text s1;
    Some ("["%char :: text ++ lit "](" ++ url ++ lit "){ " ++ strip attr ++ lit " }", rest).

Definition restore_attributes (lines : list str) : list str :=
  map (re_sub restore_attr_matcher) lines.

(** a link [[text](url)] as written in a unit *)
Definition mk_link (text url : str) : str := "["%char :: text ++ lit "](" ++ url ++ [")"%char].

(** the unit a link target names: [url.split('#')[0]] *)
Definition target_unit (url : str) : str := hd [] (str_split "#" url).

(** a registry holding the two units of the spec's example scenario *)
Definition FILES_ab : list str := [lit "a.md"; lit "b.md"].

(* ------------------------------------------------------------------ *)
(** ** export_docx.process_checkboxes *)

(** In the two input patterns, [Q] stands for the double quote character.
    The part of [<input[^>]+KEY=Q(PREFIX[^Q]+)Q[^>]*>] after [[^>]+]:
    group 1 and the rest.  [[^Q]+] may run over a [>]. *)
Definition input_tail_re (key prefix : str) (t : str) : option (str * str) :=
  s1 ← expects (key ++ "="%char :: dq :: prefix) t;
  '(x, s2) ← span1 (not_char dq) s1;
  s3 ← expect dq s2;
  rest ← expect ">" (dropWhile (not_char ">") s3);
  Some (prefix ++ x, rest).

(** backtracking of a greedy [[^>]+]: try the candidates [drop n t], ...,
    [drop 1 t], longest consumed prefix first *)
Fixpoint try_longest {A} (f : str -> option A) (t : str) (n : nat) : option A :=
  match n with
  | O => None
  | S n' =>
      match f (drop (S n') t) with
      | Some r => Some r
      | None => try_longest f t n'
      end
  end.

(** [<input[^>]+KEY=Q(PREFIX[^Q]+)Q[^>]*>]: group 1 and the rest *)
Definition input_re (key prefix : str) (s : str) : option (str * str) :=
  t ← expects (lit "<input") s;
  try_longest (input_tail_re key prefix) t (length (takeWhile (not_char ">") t)).

(** [re.sub(pattern, r'[\1]', content)] *)
Definition input_to_token (key prefix : str) : matcher :=
  fun s => '(g, rest) ← input_re key prefix s; Some ("["%char :: g ++ ["]"%char], rest).

Definition process_checkboxes (content : str) : str :=
  let content := re_sub (input_to_token (lit "id") (lit "cb-")) content in
  let content := re_sub (input_to_token (lit "name") (lit "pledge_")) content in
  content.

(* ------------------------------------------------------------------ *)
(** ** import_docx.restore_checkboxes *)

(** [\[(PREFIX[^\]]+)\]]: group 1 and the rest *)
Definition token_re (prefix : str) (s : str) : option (str * str) :=
  s1 ← expect "[" s;
  s2 ← expects prefix s1;
  '(x, s3) ← span1 (not_char "]") s2;
  rest ← expect "]" s3;
  Some (prefix ++ x, rest).

(** the element written back for [[cb-...]] *)
Definition cb_element (cb_id : str) : str :=
  lit "<input type='checkbox' checked id=" ++ dq :: cb_id ++ dq :: lit " class="
  ++ dq :: lit "cb-sa" ++ dq :: lit " onchange=" ++ dq :: lit "toggleCheckboxes(event)"
  ++ dq :: lit "/>".

(** the element written back for [[pledge_...]] *)
Definition pledge_element (pledge_name : str) : str :=
  lit "<input type='checkbox' checked name=" ++ dq :: pledge_name ++ dq :: lit " class="
  ++ dq :: lit "data-input" ++ dq :: lit " />".

Definition token_to_element (prefix : str) (element : str -> str) : matcher :=
  fun s => '(g, rest) ← token_re prefix s; Some (element g, rest).

Definition restore_checkboxes_line (line : str) : str :=
  let line := if re_search (token_re (lit "cb-")) line
              then re_sub (token_to_element (lit "cb-") cb_element) line else line in
  let line := if re_search (token_re (lit "pledge_")) line
              then re_sub (token_to_element (lit "pledge_") pledge_element) line else line in
  line.

Definition restore_checkboxes (lines : list str) : list str :=
  map restore_checkboxes_line lines.

(** the fixed text of the two elements between [<input] and the identifier,
    and after the closing quote of the identifier *)
Definition cb_head : str := lit " type='checkbox' checked id=" ++ dq :: lit "cb-".
Definition cb_tail : str :=
  lit " class=" ++ dq :: lit "cb-sa" ++ dq :: lit " onchange=" ++ dq
  :: lit "toggleCheckboxes(event)" ++ dq :: lit "/>".
Definition pledge_head : str := lit " type='checkbox' checked name=" ++ dq :: lit "pledge_".
Definition pledge_tail : str := lit " class=" ++ dq :: lit "data-input" ++ dq :: lit " />".

(* ------------------------------------------------------------------ *)
(** ** Block markers, shared by both scripts *)

(** The block-start pattern of the import: [^\s*///\s+(\w+)] followed by a
    second group [.*] for the rest of the line; returns both groups.  The runs
    [\s*], [\s+] and [\w+] are each followed by a character they cannot
    consume, and [.*] takes the rest of a line (no newline in a line).
    The export's [^\s*///\s+\w+] matches exactly when this one does. *)
Definition start_match (line : str) : option (str * str) :=
  r1 ← expects (lit "///") (dropWhile is_space line);
  '(_, r2) ← span1 is_space r1;
  span1 is_word r2.

Definition is_block_start (line : str) : bool :=
  match start_match line with Some _ => true | None => false end.

(** [^\s*///\s*$] on a line without newline *)
Definition is_block_end (line : str) : bool :=
  match expects (lit "///") (dropWhile is_space line) with
  | Some r => forallb is_space r
  | None => false
  end.

(* ------------------------------------------------------------------ *)
(** ** export_docx.unindent_blocks *)

(** the state of the loop: [stack_depth] and [new_lines] *)
Definition unindent_step (st : Z * list str) (line : str) : Z * list str :=
  let '(stack_depth, new_lines) := st in
  let current_indent := (Z.of_nat (length line) - Z.of_nat (length (lstrip_spaces line)))%Z in
  if is_block_start line then
    ((stack_depth + 1)%Z, new_lines ++ [strip line; []])
  else if is_block_end line then
    let stack_depth := (stack_depth - 1)%Z in
    let stack_depth := if (stack_depth <? 0)%Z then 0%Z else stack_depth in
    (stack_depth, new_lines ++ [strip line; []])
  else
    let indent_to_remove := (stack_depth * 4)%Z in
    let processed_line :=
      if (indent_to_remove <=? current_indent)%Z then slice_from line indent_to_remove
      else if str_eqb (strip line) [] then []
      else lstrip line in
    let stripped_line := strip processed_line in
    if startswith stripped_line (lit "type:") || startswith stripped_line (lit "open:")
       || startswith stripped_line (lit "<input") || startswith stripped_line (lit "[cb-")
       || startswith stripped_line (lit "[pledge_")
    then (stack_depth, new_lines ++ [processed_line; []])
    else (stack_depth, new_lines ++ [processed_line]).

Definition unindent_run (lines : list str) : Z * list str :=
  fold_left unindent_step lines (0%Z, []).

Definition unindent_blocks (content : str) : str :=
  str_join [nl] (unindent_run (str_split nl content)).2.

(** The content rule of the spec, in its own words: strip exactly [4 d]
    columns from a line that starts with at least [4 d] spaces; otherwise a
    blank line stays blank and any other line loses all its leading
    whitespace. *)
Definition content_rule (d : nat) (line : str) : str :=
  if startswith line (repeat " "%char (4 * d)) then drop (4 * d) line
  else if forallb is_space line then []
  else dropWhile is_space line.

(* ------------------------------------------------------------------ *)
(** ** import_docx.clean_buffer *)

Definition is_blank (l : str) : bool := str_eqb (strip l) [].

(** [find_next_non_blank(k)]: the index and text of the first non-blank line
    from index [k] on; [fuel] bounds the scan (the list length suffices) *)
Fixpoint find_next_non_blank (lines : list str) (k fuel : nat) : option (nat * str) :=
  match fuel with
  | O => None
  | S fuel' =>
      match lines !! k with
      | None => None
      | Some l => if is_blank l then find_next_non_blank lines (S k) fuel' else Some (k, l)
      end
  end.

(** the [while i < len(lines)] loop; each round moves [i] forward, so
    [length lines] rounds suffice *)
Fixpoint clean_loop (lines : list str) (i fuel : nat) : list str :=
  match fuel with
  | O => []
  | S fuel' =>
      match lines !! i with
      | None => []
      | Some line =>
          let default := line :: clean_loop lines (S i) fuel' in
          match find_next_non_blank lines (S i) (length lines) with
          | Some (next_idx, next_line) =>
              if Nat.eqb next_idx 0 then default
              else if contains line (lit "/// details") && contains next_line (lit "type:") then
                line :: clean_loop lines next_idx fuel'
              else if contains line (lit "type:") && contains next_line (lit "open:") then
                line :: next_line :: clean_loop lines (S next_idx) fuel'
              else if (contains line (lit "type:") || contains line (lit "open:"))
                      && negb (str_eqb (strip next_line) [])
                      && negb (startswith (strip next_line) (lit "open:"))
                      && negb (startswith (strip next_line) (lit "///")) then
                line :: [] :: next_line :: clean_loop lines (S next_idx) fuel'
              else if contains line (lit "/// html") && contains line (lit "li") then
                line :: (match lines !! S i with
                         | Some l => if negb (str_eqb (strip l) []) then [[]] else []
                         | None => []
                         end) ++ clean_loop lines (S i) fuel'
              else if (contains line (lit "<input") || contains line (lit "[cb-")
                       || contains line (lit "[pledge_"))
                      && negb (str_eqb (strip next_line) []) && (S i <? next_idx)%nat then
                line :: next_line :: clean_loop lines (S next_idx) fuel'
              else default
          | None => default
          end
      end
  end.

Fixpoint drop_leading_blank (lines : list str) : list str :=
  match lines with
  | l :: ls => if str_eqb (strip l) [] then drop_leading_blank ls else lines
  | [] => []
  end.

Definition clean_buffer (lines : list str) : list str :=
  let lines := drop_leading_blank lines in
  clean_loop lines 0 (length lines).

(* ------------------------------------------------------------------ *)
(** ** import_docx.process_content *)

(** the first match of a matcher anywhere in the string ([re.search]) *)
Fixpoint re_find {A} (m : str -> option A) (s : str) : option A :=
  match m s with
  | Some r => Some r
  | None => match s with [] => None | _ :: s' => re_find m s' end
  end.

(** [\*\*=== FILE: ([\w\.-]+) ===\*\*]: group 1 *)
Definition file_marker_re (s : str) : option str :=
  s1 ← expects (lit "**=== FILE: ") s;
  '(name, s2) ← span1 anchor_char s1;
  _ ← expects (lit " ===**") s2;
  Some name.

(** [\s///\s*$] on a line without newline *)
Definition sigil_tail_re (s : str) : option unit :=
  match s with
  | c :: s' => if is_space c && startswith s' (lit "///") && forallb is_space (drop 3 s')
               then Some tt else None
  | [] => None
  end.

(** the pre-pass on one line *)
Definition presplit_line (line : str) : list str :=
  let stripped := strip line in
  if endswith stripped (lit "///") && negb (str_eqb stripped (lit "///")) then
    if re_search sigil_tail_re line then
      let idx := rfind line (lit "///") in
      [slice_to line idx; slice_from line idx]
    else [line]
  else [line].

Definition presplit (content : str) : list str :=
  flat_map presplit_line (str_split nl content).

(** step 2 of the loop: the unescapes and the trailing backslash *)
Definition unescape (line : str) : str :=
  let line := str_replace [bslash; "|"%char] (lit "|") line in
  let line := str_replace [bslash; "<"%char] (lit "<") line in
  let line := str_replace [bslash; ">"%char] (lit ">") line in
  let line := str_replace [bslash; "_"%char] (lit "_") line in
  let line := str_replace [bslash; "["%char] (lit "[") line in
  let line := str_replace [bslash; "]"%char] (lit "]") line in
  let line := str_replace ["160"%char] (lit " ") line in
  if endswith line [bslash] then slice_to line (-1) else line.

(** the increment of a block start of type [block_type] with [rest_of_tag] *)
Definition block_increment (block_type rest_of_tag : str) : Z :=
  if str_eqb block_type (lit "html") then
    if contains rest_of_tag (lit "ul.tasklist") then 2
    else if contains rest_of_tag (lit "li") then 2
    else 4
  else if str_eqb block_type (lit "details") then 0
  else 4.

(** The loop state.  [indent_stack] is kept top first: the head is the
    source's [indent_stack[-1]].  [files_content] is a dict; an association
    list in insertion order, where assigning an existing key keeps its place. *)
Record pc_state := mk_pc {
  files_content : list (str * list str);
  current_file : option str;
  current_buffer : list str;
  indent_stack : list (Z * option str)
}.

Fixpoint assoc_set (k : str) (v : list str) (d : list (str * list str)) : list (str * list str) :=
  match d with
  | [] => [(k, v)]
  | (k', v') :: d' => if str_eqb k k' then (k, v) :: d' else (k', v') :: assoc_set k v d'
  end.

(** [if current_file: files_content[current_file] = clean_buffer(current_buffer)] *)
Definition save_file (st : pc_state) : list (str * list str) :=
  match current_file st with
  | Some f => if truthy f then assoc_set f (clean_buffer (current_buffer st)) (files_content st)
              else files_content st
  | None => files_content st
  end.

(** the handling of a line once a file is open (step 3); [None] is the
    [IndexError] of [indent_stack[-1]] on an empty stack *)
Definition handle_line (buf : list str) (stk : list (Z * option str)) (line : str)
    : option (list str * list (Z * option str)) :=
  '(current_indent, current_block_type) ← head stk;
  match start_match line with
  | Some (block_type, rest_of_tag) =>
      let tag_indent := current_indent in
      let new_indent := (tag_indent + block_increment block_type rest_of_tag)%Z in
      Some (buf ++ [spaces tag_indent ++ line], (new_indent, Some block_type) :: stk)
  | None =>
      if is_block_end line then
        let stk := if (1 <? length stk)%nat then tail stk else stk in
        '(parent_indent, _) ← head stk;
        Some (buf ++ [spaces parent_indent ++ line], stk)
      else
        let is_details :=
          match current_block_type with Some t => str_eqb t (lit "details") | None => false end in
        if is_details then
          let stripped := strip line in
          if startswith stripped (lit "type:") || startswith stripped (lit "open:")
          then Some (buf ++ [spaces (current_indent + 4) ++ line], stk)
          else Some (buf ++ [spaces current_indent ++ line], stk)
        else if str_eqb (strip line) [] then Some (buf ++ [[]], stk)
        else
          let stripped_line := lstrip line in
          if is_details && (startswith stripped_line (lit "type:")
                            || startswith stripped_line (lit "open:"))
          then Some (buf ++ [spaces (current_indent + 4) ++ stripped_line], stk)
          else Some (buf ++ [spaces current_indent ++ stripped_line], stk)
  end.

Definition pc_step (st : pc_state) (line : str) : option pc_state :=
  match re_find file_marker_re line with
  | Some f => Some (mk_pc (save_file st) (Some f) [] [(0%Z, None)])
  | None =>
      match current_file st with
      | None => Some st
      | Some _ =>
          '(buf, stk) ← handle_line (current_buffer st) (indent_stack st) (unescape line);
          Some (mk_pc (files_content st) (current_file st) buf stk)
      end
  end.

Fixpoint pc_run (st : pc_state) (lines : list str) : option pc_state :=
  match lines with
  | [] => Some st
  | l :: ls => st' ← pc_step st l; pc_run st' ls
  end.

Definition pc_init : pc_state := mk_pc [] None [] [(0%Z, None)].

Definition process_content (content : str) : option (list (str * list str)) :=
  st ← pc_run pc_init (presplit content);
  Some (save_file st).

(* ------------------------------------------------------------------ *)
(** ** export_to_sheets.anonymize_data *)

(** A record is a dict from column names to values; dict equality in Python
    ignores insertion order, so a [gmap] models it.  The values are of any
    type [V]. *)
Definition EXCLUDED_COLUMNS : list string :=
  ["show_name"; "created_at"; "first_name"; "last_name"; "affiliation"; "email";
   "orcid"; "comment"]%string.

(** [{k: v for k, v in row.items() if k not in EXCLUDED_COLUMNS}] *)
Definition anonymize_row {V : Type} (row : gmap string V) : gmap string V :=
  filter (fun kv => kv.1 ∉ EXCLUDED_COLUMNS) row.

(** [data] is the result of [fetch_all_submissions], a list or [None];
    [if not data: return []] *)
Definition anonymize_data {V : Type} (data : option (list (gmap string V)))
    : list (gmap string V) :=
  match data with
  | None | Some [] => []
  | Some rows => map anonymize_row rows
  end.

(* ------------------------------------------------------------------ *)
(** ** import_docx.main *)

(** [re.sub(r'\n{3,}', '\n\n', s)]: a maximal run of three or more newlines *)
Definition newlines_re : matcher :=
  fun s => '(run, rest) ← span1 (is_char nl) s;
           if (3 <=? length run)%nat then Some ([nl; nl], rest) else None.

(** the text written for one unit, from its reconstructed lines *)
Definition import_unit (filename : str) (lines : list str) : str :=
  let lines := restore_links FILES lines filename in
  let lines := restore_attributes lines in
  let lines := restore_checkboxes lines in
  let file_content := str_join [nl] lines in
  re_sub newlines_re file_content.

(** The file system: the content of each path, if any. *)
Definition fs_state := str -> option str.

Definition fs_update (fs : fs_state) (path content : str) : fs_state :=
  fun q => if str_eqb q path then Some content else fs q.

(** What [with open(path, 'w') as f: f.write(text)] does on a path: it
    succeeds; or [open] raises and the file is untouched; or [open]
    truncates the file and the write raises after its first [k]
    characters. *)
Inductive io_outcome := IOk | IOpenFail | IWriteFail (k : nat).

(** the write and whether it completed without an exception *)
Definition write_file (io : str -> io_outcome) (fs : fs_state) (path text : str)
    : fs_state * bool :=
  match io path with
  | IOk => (fs_update fs path text, true)
  | IOpenFail => (fs, false)
  | IWriteFail k => (fs_update fs path (take k text), false)
  end.

(** [os.path.join(DOCS_DIR, filename)] for a name without a slash *)
Definition unit_path (filename : str) : str := lit "docs/" ++ filename.

(** the loop [for filename, lines in files_content.items()]; an exception
    ends the program *)
Fixpoint write_units (io : str -> io_outcome) (fs : fs_state)
    (units : list (str * list str)) : fs_state * bool :=
  match units with
  | [] => (fs, true)
  | (filename, lines) :: units' =>
      let '(fs', ok) := write_file io fs (unit_path filename) (import_unit filename lines) in
      if ok then write_units io fs' units' else (fs', false)
  end.

(** [main]: [converted] is the output of [pypandoc.convert_file], [None]
    when it raises; [build_anchor_map]'s result is unused and it cannot
    raise, so it is left out.  The result is the final file system and
    whether [main] ran to its end. *)
Definition import_main (converted : option str) (io : str -> io_outcome) (fs : fs_state)
    : fs_state * bool :=
  match converted with
  | None => (fs, false)
  | Some content =>
      let '(fs1, ok) := write_file io fs (lit "debug_import_full.md") content in
      if ok then
        match process_content content with
        | Some files_content => write_units io fs1 files_content
        | None => (fs1, false)
        end
      else (fs1, false)
  end.

(** the file system after writing the given units in order, each in full *)
Definition apply_writes (fs : fs_state) (units : list (str * list str)) : fs_state :=
  fold_left (fun fs '(filename, lines) =>
               fs_update fs (unit_path filename) (import_unit filename lines)) units fs.

(* ------------------------------------------------------------------ *)
(** ** export_docx.escape_html *)

Definition escape_html (content : str) : str :=
  let content := str_replace (lit "<") (lit "&lt;") content in
  let content := str_replace (lit ">") (lit "&gt;") content in
  content.

(* ------------------------------------------------------------------ *)
(** ** export_docx.main *)

(** the line of the header: [**=== FILE: {filename} ===** {#{file_anchor}}] *)
Definition marker_line (filename : str) : str :=
  lit "**=== FILE: " ++ filename ++ lit " ===** {#" ++ file_anchor filename ++ lit "}".

(** [f"\n\n**=== FILE: {filename} ===** {{#{file_anchor}}}\n\n"] *)
Definition export_header (filename : str) : str :=
  [nl; nl] ++ marker_line filename ++ [nl; nl].

(** steps 2 to 5 of the loop on the text of one unit *)
Definition export_unit (filename content : str) : str :=
  let content := process_links FILES content filename in
  let content := process_checkboxes content in
  let content := unindent_blocks content in
  let content := escape_html content in
  let content := process_checkboxes content in
  content.

(** [combined_markdown]: [read] gives the text of a path, [None] when
    [open] raises.  The debug copy and the pandoc conversion that follow
    only consume the result and are left out. *)
Fixpoint export_combined (read : str -> option str) (files : list str) : option str :=
  match files with
  | [] => Some []
  | filename :: files' =>
      content ← read (unit_path filename);
      rest ← export_combined read files';
      Some (export_header filename ++ export_unit filename content ++ rest)
  end.

(* ------------------------------------------------------------------ *)
(** ** Unit markers seen by the import *)

(** the names of the file markers of the text, in order, as the loop of
    [process_content] meets them *)
Definition file_markers (content : str) : list str :=
  omap (re_find file_marker_re) (presplit content).

Definition dedup_step (acc : list str) (x : str) : list str :=
  if existsb (str_eqb x) acc then acc else acc ++ [x].

(** a list without repetitions, each element at its first occurrence *)
Definition dedup_first (l : list str) : list str := fold_left dedup_step l [].

(* ------------------------------------------------------------------ *)
(** ** export_to_sheets.convert_to_long_format *)

Definition IDENTIFIER_COLUMNS : list string :=
  ["id"; "gender"; "career_stage"; "country_of_origin"; "age"; "country_of_residence"]%string.

(** The values of a long row: [row.get(id_col)] ([None] for a missing key),
    the name of a pledge column, and that column's value. *)
Inductive long_val (V : Type) :=
| LGet (o : option V)
| LPledge (name : string)
| LValue (v : V).
Arguments LGet {V} o.
Arguments LPledge {V} name.
Arguments LValue {V} v.

(** [long_row], built by assignments in this order: a dict with these keys
    in insertion order *)
Definition long_row {V : Type} (row : gmap string V) (pledge_name : string) (pledge_value : V)
    : list (string * long_val V) :=
  map (fun id_col => (id_col, LGet (row !! id_col))) IDENTIFIER_COLUMNS
  ++ [("pledge"%string, LPledge pledge_name); ("value"%string, LValue pledge_value)].

(** [{k: v for k, v in row.items() if k.startswith('pledge_')}] *)
Definition pledge_columns {V : Type} (row : gmap string V) : gmap string V :=
  filter (fun kv => String.prefix "pledge_" kv.1 = true) row.

(** The records are [gmap]s as in [anonymize_data]; a record's pledge
    columns are visited in the map's key order (Python visits them in the
    record's insertion order). *)
Definition convert_to_long_format {V : Type} (data : list (gmap string V))
    : list (list (string * long_val V)) :=
  match data with
  | [] => []
  | _ => flat_map (fun row => map (fun '(pledge_name, pledge_value) =>
                                     long_row row pledge_name pledge_value)
                                  (map_to_list (pledge_columns row))) data
  end.

(* ------------------------------------------------------------------ *)
(** ** export_to_sheets.export_to_google_sheets and main *)

(** [d.get(k)] on a dict kept as an association list in insertion order *)
Fixpoint dict_get {W : Type} (k : string) (d : list (string * W)) : option W :=
  match d with
  | [] => None
  | (k', w) :: d' => if String.eqb k k' then Some w else dict_get k d'
  end.

(** The table written to the sheet: the header row and the value rows.
    [None] is the [No data to export] return.  The credential check before
    it and the API calls after it are left out. *)
Definition sheet_values {W : Type} (data : list (list (string * W)))
    : option (list string * list (list (option W))) :=
  match data with
  | [] => None
  | row0 :: _ =>
      let headers := take 8 (map fst row0) in
      Some (headers, map (fun row => map (fun col => dict_get col row) headers) data)
  end.

(** [main] from the fetched records ([None] when the fetch failed) to the
    table written to the sheet *)
Definition sheets_main {V : Type} (fetched : option (list (gmap string V)))
    : option (list string * list (list (option (long_val V)))) :=
  match fetched with
  | None => None
  | Some _ =>
      let anonymized_data := anonymize_data fetched in
      let long_format_data := convert_to_long_format anonymized_data in
      sheet_values long_format_data
  end.

(* ------------------------------------------------------------------ *)
(** ** import_docx.build_anchor_map *)

(** [\{#([\w\.-]+)\}]: group 1 and the rest *)
Definition anchor_re (s : str) : option (str * str) :=
  s1 ← expects (lit "{#") s;
  '(anchor, s2) ← span1 anchor_char s1;
  s3 ← expect "}" s2;
  Some (anchor, s3).

(** [anchor_pattern.findall(line)]: the non-overlapping matches from left
    to right; a match is never empty, so [length s] steps suffice *)
Fixpoint anchor_findall_aux (fuel : nat) (s : str) : list str :=
  match fuel with
  | O => []
  | S fuel' =>
      match anchor_re s with
      | Some (anchor, rest) => anchor :: anchor_findall_aux fuel' rest
      | None => match s with [] => [] | _ :: s' => anchor_findall_aux fuel' s' end
      end
  end.

Definition anchor_findall (s : str) : list str := anchor_findall_aux (length s) s.

(** [anchor_map[anchor] = current_file]: a dict, kept in insertion order *)
Fixpoint amap_set (k v : str) (d : list (str * str)) : list (str * str) :=
  match d with
  | [] => [(k, v)]
  | (k', v') :: d' => if str_eqb k k' then (k, v) :: d' else (k', v') :: amap_set k v d'
  end.

(** one iteration of the loop over the lines: [anchor_map] and [current_file] *)
Definition anchor_step (st : list (str * str) * option str) (line : str)
    : list (str * str) * option str :=
  let '(anchor_map, current_file) := st in
  match re_find file_marker_re line with
  | Some f => (anchor_map, Some f)
  | None =>
      match current_file with
      | Some f =>
          if truthy f then
            (fold_left (fun m anchor => amap_set anchor f m) (anchor_findall line) anchor_map,
             current_file)
          else st
      | None => st
      end
  end.

Definition build_anchor_map (content : str) : list (str * str) :=
  (fold_left anchor_step (str_split nl content) ([], None)).1.

(** what the loop keeps: every entry comes from a line with the anchor
    whose nearest marker line above names the file; [current_file] is the
    file of the last marker line seen *)
Definition unmarked (lines : list str) : Prop :=
  Forall (fun x => re_find file_marker_re x = None) lines.

Definition anchor_inv (seen : list str) (st : list (str * str) * option str) : Prop :=
  (forall a f, In (a, f) st.1 ->
     exists pre l mid l' post, seen = pre ++ l :: mid ++ l' :: post
       /\ re_find file_marker_re l = Some f /\ unmarked mid
       /\ re_find file_marker_re l' = None /\ In a (anchor_findall l'))
  /\ (forall f, st.2 = Some f ->
        exists pre l mid, seen = pre ++ l :: mid
          /\ re_find file_marker_re l = Some f /\ unmarked mid).

(** the test of [unindent_blocks] for the lines after which it adds a
    blank line, on the stripped processed line *)
Definition metadata_line (stripped_line : str) : bool :=
  startswith stripped_line (lit "type:") || startswith stripped_line (lit "open:")
  || startswith stripped_line (lit "<input") || startswith stripped_line (lit "[cb-")
  || startswith stripped_line (lit "[pledge_").

(* ================================================================== *)
(** * Properties *)

(** ** Lemmas on the string primitives *)

Lemma ascii_eqb_refl' (c : ascii) : Ascii.eqb c c = true.
Proof. apply Ascii.eqb_refl. Qed.

Lemma str_eqb_eq (a b : str) : str_eqb a b = true <-> a = b.
Proof.
  revert b; induction a as [|c a IH]; intros [|d b]; simpl; try (split; congruence).
  rewrite andb_true_iff, Ascii.eqb_eq, IH. split; [intros [-> ->]|intros [=]]; auto.
Qed.

Lemma str_eqb_refl (a : str) : str_eqb a a = true.
Proof. apply str_eqb_eq. reflexivity. Qed.

Lemma str_eqb_sym (a b : str) : str_eqb a b = str_eqb b a.
Proof.
  destruct (str_eqb a b) eqn:E; destruct (str_eqb b a) eqn:F; auto.
  - apply str_eqb_eq in E; subst; rewrite str_eqb_refl in F; discriminate.
  - apply str_eqb_eq in F; subst; rewrite str_eqb_refl in E; discriminate.
Qed.

Lemma takeWhile_app_stop (p : ascii -> bool) (x r : str) (c : ascii) :
  forallb p x = true -> p c = false -> takeWhile p (x ++ c :: r) = x.
Proof.
  induction x as [|d x IH]; simpl; intros Hx Hc.
  - by rewrite Hc.
  - apply andb_true_iff in Hx as [-> Hx]. by rewrite IH.
Qed.

Lemma dropWhile_app_stop (p : ascii -> bool) (x r : str) (c : ascii) :
  forallb p x = true -> p c = false -> dropWhile p (x ++ c :: r) = c :: r.
Proof.
  induction x as [|d x IH]; simpl; intros Hx Hc.
  - by rewrite Hc.
  - apply andb_true_iff in Hx as [-> Hx]. by rewrite IH.
Qed.

Lemma span1_app_stop (p : ascii -> bool) (x r : str) (c : ascii) :
  x <> [] -> forallb p x = true -> p c = false ->
  span1 p (x ++ c :: r) = Some (x, c :: r).
Proof.
  intros Hne Hx Hc. unfold span1.
  rewrite (takeWhile_app_stop p x r c Hx Hc), (dropWhile_app_stop p x r c Hx Hc).
  by destruct x.
Qed.

Lemma expects_app (p r : str) : expects p (p ++ r) = Some r.
Proof. induction p as [|c p IH]; simpl; [done|]. by rewrite Ascii.eqb_refl. Qed.

Lemma re_sub_whole (m : matcher) (s r : str) :
  s <> [] -> m s = Some (r, []) -> re_sub m s = r.
Proof.
  intros Hs Hm. unfold re_sub. destruct s as [|c s']; [done|].
  simpl. rewrite Hm. destruct (length s'); simpl; by rewrite app_nil_r.
Qed.

Lemma startswith_app (x y : str) : startswith (x ++ y) x = true.
Proof. induction x; simpl; [by destruct y|]. by rewrite Ascii.eqb_refl. Qed.

Lemma startswith_app_l (x y p : str) :
  startswith x p = true -> startswith (x ++ y) p = true.
Proof.
  revert p; induction x as [|c x IH]; intros [|e p]; simpl; intros H;
    try discriminate; try (by destruct y).
  apply andb_true_iff in H as [-> H]. simpl. auto.
Qed.

Lemma contains_app_l (x y p : str) : contains x p = true -> contains (x ++ y) p = true.
Proof.
  induction x as [|c x IH]; simpl; intros H.
  - destruct p; [by destruct y|]. simpl in H. discriminate.
  - apply orb_true_iff in H as [H|H]; apply orb_true_iff.
    + left. by apply (startswith_app_l (c :: x)).
    + right. auto.
Qed.

Lemma str_split_nosep (sep : ascii) (x : str) :
  forallb (not_char sep) x = true -> str_split sep x = [x].
Proof.
  induction x as [|c x IH]; simpl; [done|].
  unfold not_char at 1. intros Hx. apply andb_true_iff in Hx as [Hc Hx].
  apply negb_true_iff in Hc. rewrite Hc, IH; done.
Qed.

Lemma str_split_app (sep : ascii) (x y : str) :
  forallb (not_char sep) x = true -> str_split sep (x ++ sep :: y) = x :: str_split sep y.
Proof.
  induction x as [|c x IH]; simpl; intros Hx.
  - by rewrite Ascii.eqb_refl.
  - unfold not_char at 1 in Hx. apply andb_true_iff in Hx as [Hc Hx].
    apply negb_true_iff in Hc. rewrite Hc, IH; done.
Qed.

Lemma forallb_app_eq {A} (p : A -> bool) (x y : list A) :
  forallb p (x ++ y) = forallb p x && forallb p y.
Proof. apply forallb_app. Qed.

(** ** The link codec on a single link *)

Lemma mk_link_eq (T url : str) :
  mk_link T url = "["%char :: T ++ "]"%char :: "("%char :: url ++ [")"%char].
Proof. reflexivity. Qed.

Lemma link_re_mk_link (T url : str) :
  T <> [] -> forallb (not_char "]") T = true ->
  url <> [] -> forallb (not_char ")") url = true ->
  link_re (mk_link T url) = Some (T, url, None, []).
Proof.
  intros HT HT' Hu Hu'. unfold link_re. rewrite mk_link_eq. cbn [expect]. rewrite Ascii.eqb_refl.
  cbn [mbind option_bind].
  rewrite span1_app_stop by done. cbn [mbind option_bind expects expect Ascii.eqb].
  simpl. rewrite span1_app_stop by done. simpl. reflexivity.
Qed.

Lemma link_re_mk_link_attr (T url attr : str) :
  T <> [] -> forallb (not_char "]") T = true ->
  url <> [] -> forallb (not_char ")") url = true ->
  attr_re attr = Some (attr, []) ->
  link_re (mk_link T url ++ attr) = Some (T, url, Some attr, []).
Proof.
  intros HT HT' Hu Hu' Ha. unfold link_re. rewrite mk_link_eq. cbn [expect app]. rewrite Ascii.eqb_refl.
  cbn [mbind option_bind].
  rewrite <- app_assoc. cbn [app].
  rewrite span1_app_stop by done. cbn [mbind option_bind expects expect Ascii.eqb].
  simpl. rewrite <- app_assoc. cbn [app].
  rewrite span1_app_stop by done. simpl. rewrite Ha. reflexivity.
Qed.

Lemma restore_link_re_mk_link (T A : str) :
  T <> [] -> forallb (not_char "]") T = true ->
  A <> [] -> forallb anchor_char A = true ->
  restore_link_re (mk_link T ("#"%char :: A)) = Some (T, A, []).
Proof.
  intros HT HT' HA HA'. unfold restore_link_re. rewrite mk_link_eq. cbn [expect]. rewrite Ascii.eqb_refl.
  cbn [mbind option_bind].
  rewrite span1_app_stop by done. simpl.
  rewrite span1_app_stop by done. simpl. reflexivity.
Qed.

(** Encoding a link whose target is [b#s] with [b] registered. *)
Lemma process_links_registered (files : list str) (a b s T : str) :
  T <> [] -> forallb (not_char "]") T = true ->
  forallb (not_char "#") b = true -> forallb (not_char ")") b = true ->
  contains b (lit ".md") = true -> startswith (b ++ "#"%char :: s) (lit "http") = false ->
  in_files files b = true ->
  s <> [] -> forallb (not_char "#") s = true -> forallb (not_char ")") s = true ->
  process_links files (mk_link T (b ++ "#"%char :: s)) a =
  if str_eqb b a then mk_link T ("#"%char :: s)
  else mk_link T ("#"%char :: safe_name b ++ lit "__" ++ s).
Proof.
  intros HT HT' Hb1 Hb2 Hmd Hhttp Hin Hs Hs1 Hs2.
  unfold process_links. apply re_sub_whole; [unfold mk_link; done|].
  unfold process_links_matcher.
  rewrite link_re_mk_link; try done.
  - cbn [mbind option_bind]. do 2 f_equal. unfold process_links_replace.
    rewrite contains_app_l by done. rewrite Hhttp. cbn [negb andb].
    rewrite str_split_app, str_split_nosep by done. rewrite Hin.
    destruct s as [|c s]; [done|].
    destruct (str_eqb b a); unfold mk_link; simpl; by rewrite <- ?app_assoc.
  - by destruct b.
  - rewrite forallb_app_eq, Hb2. simpl. unfold not_char at 1. simpl. done.
Qed.

(** Decoding an encoded cross-unit anchor. *)
Lemma restore_links_encoded (files : list str) (a b s T : str) :
  T <> [] -> forallb (not_char "]") T = true ->
  s <> [] -> forallb anchor_char s = true ->
  forallb anchor_char (safe_name b ++ lit "__") = true ->
  find_target files (safe_name b ++ lit "__" ++ s) = Some (b, Some s) ->
  b <> [] -> str_eqb b a = false ->
  restore_links files [mk_link T ("#"%char :: safe_name b ++ lit "__" ++ s)] a =
  [mk_link T (b ++ "#"%char :: s)].
Proof.
  intros HT HT' Hs Hs' Hsafe Hfind Hb Hba.
  unfold restore_links. cbn [map]. f_equal.
  apply re_sub_whole; [done|]. unfold restore_links_matcher.
  rewrite restore_link_re_mk_link; try done.
  - cbn [mbind option_bind]. do 2 f_equal. unfold restore_links_replace.
    rewrite Hfind. destruct b; [done|]. cbn [truthy]. rewrite Hba.
    destruct s; [done|]. unfold mk_link. simpl. rewrite <- !app_assoc. reflexivity.
  - by destruct (safe_name b).
  - rewrite app_assoc, forallb_app_eq, Hsafe, Hs'. done.
Qed.

(** Decoding a plain anchor that names no registered unit. *)
Lemma restore_links_plain (files : list str) (a A T : str) :
  T <> [] -> forallb (not_char "]") T = true ->
  A <> [] -> forallb anchor_char A = true ->
  find_target files A = None ->
  restore_links files [mk_link T ("#"%char :: A)] a = [mk_link T ("#"%char :: A)].
Proof.
  intros HT HT' HA HA' Hfind.
  unfold restore_links. cbn [map]. f_equal.
  apply re_sub_whole; [done|]. unfold restore_links_matcher.
  rewrite restore_link_re_mk_link by done.
  cbn [mbind option_bind]. unfold restore_links_replace. rewrite Hfind.
  unfold mk_link. simpl. reflexivity.
Qed.

(** ** Facts about the registered units *)

Lemma anchor_char_not_special (s : str) :
  forallb anchor_char s = true ->
  forallb (not_char "#") s = true /\ forallb (not_char ")") s = true.
Proof.
  induction s as [|c s IH]; simpl; [done|].
  intros [Hc Hs]%andb_true_iff. destruct (IH Hs) as [-> ->].
  unfold not_char. rewrite !andb_true_r.
  split; apply negb_true_iff; destruct (Ascii.eqb c _) eqn:E; try done;
    apply Ascii.eqb_eq in E; subst; discriminate.
Qed.

Lemma FILES_facts (b : str) : In b FILES ->
  forallb (not_char "#") b = true /\ forallb (not_char ")") b = true /\
  contains b (lit ".md") = true /\ (forall y, startswith (b ++ y) (lit "http") = false) /\
  in_files FILES b = true /\ b <> [] /\
  forallb anchor_char (safe_name b ++ lit "__") = true /\
  (forall s, find_target FILES (safe_name b ++ lit "__" ++ s) = Some (b, Some s)).
Proof.
  intros Hb. repeat destruct Hb as [<-|Hb]; [..|destruct Hb];
    (split; [reflexivity|]); (split; [reflexivity|]); (split; [reflexivity|]);
    (split; [intros y; reflexivity|]); (split; [reflexivity|]); (split; [discriminate|]);
    (split; [reflexivity|]); intros s; reflexivity.
Qed.

(** ** C1: the link codec round trip *)

(** C1 (as stated fails): an anchor with a character outside [[\w.-]], here
    [fig:1], is encoded to [#validity_md__fig:1], which the decoder's pattern
    [#([\w\.-]+)\)] does not recognise, so decoding leaves the encoded anchor
    in place instead of giving back [validity.md#fig:1]. *)
Lemma link_codec_bijection_counterexample :
  restore_links FILES
    [process_links FILES (mk_link (lit "Fig") (lit "validity.md#fig:1")) (lit "introduction.md")]
    (lit "introduction.md")
  = [mk_link (lit "Fig") (lit "#validity_md__fig:1")]
  /\ mk_link (lit "Fig") (lit "#validity_md__fig:1") <> mk_link (lit "Fig") (lit "validity.md#fig:1").
Proof. split; [reflexivity | vm_compute; discriminate]. Qed.

(** C1 (amended): for registered units [a] (the unit being processed) and [b],
    a link text [T] and a non-empty anchor [s] made of [[\w.-]] characters,
    decoding the encoding of [[T](b#s)] gives back [[T](b#s)] when [a <> b],
    and the same-unit form [[T](#s)] when [a = b], provided in that case that
    [s] is not itself an encoded anchor (equal to a registered unit's encoded
    name, or starting with it followed by [__]). *)
Theorem link_codec_roundtrip (a b s T : str) :
  In a FILES -> In b FILES ->
  T <> [] -> forallb (not_char "]") T = true ->
  s <> [] -> forallb anchor_char s = true ->
  (a = b -> find_target FILES s = None) ->
  restore_links FILES [process_links FILES (mk_link T (b ++ "#"%char :: s)) a] a =
  [if str_eqb a b then mk_link T ("#"%char :: s) else mk_link T (b ++ "#"%char :: s)].
Proof.
  intros Ha Hb HT HT' Hs Hs' Hsame.
  destruct (FILES_facts b Hb) as (Hb1 & Hb2 & Hmd & Hhttp & Hin & Hbne & Hsafe & Hfind).
  destruct (anchor_char_not_special s Hs') as [Hs1 Hs2].
  rewrite process_links_registered by auto.
  rewrite (str_eqb_sym b a).
  destruct (str_eqb a b) eqn:E.
  - apply str_eqb_eq in E. apply restore_links_plain; auto.
  - apply restore_links_encoded; auto. by rewrite str_eqb_sym.
Qed.

Lemma link_codec_roundtrip_witness :
  (In (lit "introduction.md") FILES /\ In (lit "validity.md") FILES) /\
  restore_links FILES
    [process_links FILES (mk_link (lit "Go") (lit "validity.md" ++ "#"%char :: lit "sec-2.1"))
       (lit "introduction.md")] (lit "introduction.md")
  = [mk_link (lit "Go") (lit "validity.md" ++ "#"%char :: lit "sec-2.1")].
Proof.
  split; [split; simpl; tauto|].
  apply (link_codec_roundtrip (lit "introduction.md") (lit "validity.md") (lit "sec-2.1") (lit "Go"));
    try (simpl; tauto); try discriminate; try reflexivity.
Defined.

(** ** C2: the example scenario [[Go](b.md#x){ #y }] *)

(** C2 (as stated fails): the exported visible text is [Go { #y }], the
    annotation keeps its braces, not [Go #y]. *)
Lemma example_scenario_counterexample :
  process_links FILES_ab (mk_link (lit "Go") (lit "b.md#x") ++ lit "{ #y }") (lit "a.md")
  = mk_link (lit "Go { #y }") (lit "#b_md__x")
  /\ mk_link (lit "Go { #y }") (lit "#b_md__x") <> mk_link (lit "Go #y") (lit "#b_md__x").
Proof. split; [reflexivity | vm_compute; discriminate]. Qed.

(** C2 (amended): with [a.md] and [b.md] registered, exporting unit [a.md]
    turns [[Go](b.md#x){ #y }] into the bare link [[Go { #y }](#b_md__x)]:
    visible text [Go { #y }], target the single anchor [#b_md__x]; link
    restoration then attribute restoration give back [[Go](b.md#x){ #y }]. *)
Theorem example_scenario_roundtrip :
  let exported := process_links FILES_ab (mk_link (lit "Go") (lit "b.md#x") ++ lit "{ #y }") (lit "a.md") in
  exported = mk_link (lit "Go { #y }") (lit "#b_md__x")
  /\ restore_attributes (restore_links FILES_ab [exported] (lit "a.md"))
     = [mk_link (lit "Go") (lit "b.md#x") ++ lit "{ #y }"].
Proof. split; reflexivity. Qed.

(** ** C8: references that name no registered unit *)

Lemma process_links_unregistered (files : list str) (a T url : str) (attr : option str) :
  T <> [] -> forallb (not_char "]") T = true ->
  url <> [] -> forallb (not_char ")") url = true ->
  in_files files (target_unit url) = false ->
  (match attr with Some at' => attr_re at' = Some (at', []) | None => True end) ->
  process_links files (mk_link T url ++ match attr with Some at' => at' | None => [] end) a =
  match attr with
  | Some at' => mk_link (T ++ " "%char :: strip at') url
  | None => mk_link T url
  end.
Proof.
  intros HT HT' Hu Hu' Hreg Hattr.
  unfold process_links. apply re_sub_whole; [by rewrite mk_link_eq|].
  unfold process_links_matcher.
  assert (Hre : link_re (mk_link T url ++ match attr with Some at' => at' | None => [] end)
                = Some (T, url, attr, [])).
  { destruct attr as [at'|].
    - by apply link_re_mk_link_attr.
    - rewrite app_nil_r. by apply link_re_mk_link. }
  rewrite Hre. cbn [mbind option_bind]. do 2 f_equal.
  unfold process_links_replace, target_unit in *.
  destruct (contains url (lit ".md") && negb (startswith url (lit "http"))); cbn zeta;
    destruct (str_split "#" url) as [|p ps]; simpl in Hreg; rewrite ?Hreg;
    destruct attr; unfold mk_link, link_group0; simpl; by rewrite ?app_nil_r, <- ?app_assoc.
Qed.

(** C8 (as stated fails): an external link carrying an attribute annotation
    is not returned unchanged by the encoder: the annotation is moved into the
    link text. *)
Lemma unresolved_references_counterexample :
  process_links FILES (mk_link (lit "Site") (lit "https://example.org") ++ lit "{ #ref }")
    (lit "introduction.md")
  = mk_link (lit "Site { #ref }") (lit "https://example.org")
  /\ mk_link (lit "Site { #ref }") (lit "https://example.org")
     <> mk_link (lit "Site") (lit "https://example.org") ++ lit "{ #ref }".
Proof. split; [reflexivity | vm_compute; discriminate]. Qed.

(** C8 (amended): (export) a link [[T](url)] whose target names no
    registered unit comes out of the encoder unchanged when it carries no
    attribute annotation; with an annotation [attr] (e.g. [{ #id }]) the only
    change is that the annotation moves into the text:
    [[T attr](url)].  (import) a reference [[T](#A)], [A] an anchor of
    [[\w.-]] characters that is no registered unit's encoded name and does
    not start with one followed by [__], is left unchanged by the decoder.
    Both functions are total: no input raises. *)
Theorem unresolved_references_pass_through :
  (forall (a T url : str),
     T <> [] -> forallb (not_char "]") T = true ->
     url <> [] -> forallb (not_char ")") url = true ->
     in_files FILES (target_unit url) = false ->
     process_links FILES (mk_link T url) a = mk_link T url
     /\ (forall attr : str, attr_re attr = Some (attr, []) ->
           process_links FILES (mk_link T url ++ attr) a
           = mk_link (T ++ " "%char :: strip attr) url))
  /\ (forall (a T A : str),
        T <> [] -> forallb (not_char "]") T = true ->
        A <> [] -> forallb anchor_char A = true ->
        find_target FILES A = None ->
        restore_links FILES [mk_link T ("#"%char :: A)] a = [mk_link T ("#"%char :: A)]).
Proof.
  split.
  - intros a T url HT HT' Hu Hu' Hreg. split.
    + pose proof (process_links_unregistered FILES a T url None HT HT' Hu Hu' Hreg I) as H.
      simpl in H. by rewrite app_nil_r in H.
    + intros attr Hattr.
      exact (process_links_unregistered FILES a T url (Some attr) HT HT' Hu Hu' Hreg Hattr).
  - intros a T A HT HT' HA HA' Hfind. by apply restore_links_plain.
Qed.

Lemma unresolved_references_pass_through_witness :
  process_links FILES (mk_link (lit "Site") (lit "https://example.org")) (lit "introduction.md")
  = mk_link (lit "Site") (lit "https://example.org")
  /\ process_links FILES (mk_link (lit "Site") (lit "https://example.org") ++ lit " { #ref }")
       (lit "introduction.md")
     = mk_link (lit "Site { #ref }") (lit "https://example.org")
  /\ restore_links FILES [mk_link (lit "see") (lit "#methods")] (lit "validity.md")
     = [mk_link (lit "see") (lit "#methods")].
Proof.
  destruct unresolved_references_pass_through as [Hexp Himp].
  destruct (Hexp (lit "introduction.md") (lit "Site") (lit "https://example.org"))
    as [H1 H2]; try reflexivity; try discriminate.
  split; [exact H1|]. split.
  - apply (H2 (lit " { #ref }")). reflexivity.
  - apply (Himp (lit "validity.md") (lit "see") (lit "methods"));
      try reflexivity; try discriminate.
Defined.

(** ** The checkbox codec *)

Lemma expect_inv (c : ascii) (s r : str) : expect c s = Some r -> s = c :: r.
Proof.
  destruct s as [|d s]; simpl; [done|].
  destruct (Ascii.eqb c d) eqn:E; [|done]. apply Ascii.eqb_eq in E as ->. by intros [= ->].
Qed.

Lemma expects_inv (p s r : str) : expects p s = Some r -> s = p ++ r.
Proof.
  revert s; induction p as [|c p IH]; simpl; intros s H; [by injection H|].
  destruct (expect c s) as [s'|] eqn:E; [|done].
  apply expect_inv in E as ->. by rewrite (IH s' H).
Qed.

Lemma takeWhile_dropWhile (p : ascii -> bool) (s : str) :
  takeWhile p s ++ dropWhile p s = s.
Proof. induction s as [|c s IH]; simpl; [done|]. by destruct (p c); simpl; rewrite ?IH. Qed.

Lemma span1_inv (p : ascii -> bool) (s x r : str) :
  span1 p s = Some (x, r) -> s = x ++ r.
Proof.
  unfold span1. intros H. rewrite <- (takeWhile_dropWhile p s).
  destruct (takeWhile p s); [done|]. by injection H as <- <-.
Qed.

Lemma takeWhile_app_all (p : ascii -> bool) (x y : str) :
  forallb p x = true -> takeWhile p (x ++ y) = x ++ takeWhile p y.
Proof.
  induction x as [|c x IH]; simpl; intros H; [done|].
  apply andb_true_iff in H as [-> H]. by rewrite IH.
Qed.

Lemma forallb_drop {A} (p : A -> bool) (x : list A) (n : nat) :
  forallb p x = true -> forallb p (drop n x) = true.
Proof.
  revert n; induction x as [|c x IH]; intros [|n]; simpl; intros H; auto.
  apply andb_true_iff in H as [_ H]. auto.
Qed.

Lemma forallb_seq (f : nat -> bool) (a n : nat) :
  forallb f (seq a n) = true -> forall j, a <= j < a + n -> f j = true.
Proof.
  intros H j Hj. rewrite forallb_forall in H. apply H. apply in_seq. lia.
Qed.

Lemma re_sub_aux_none (m : matcher) (fuel : nat) (s : str) :
  (forall j, m (drop j s) = None) -> re_sub_aux fuel m s = s.
Proof.
  revert s; induction fuel as [|fuel IH]; intros s H; simpl; [done|].
  destruct s as [|c s]; [done|].
  rewrite (H 0 : m (c :: s) = None). f_equal. apply IH. intros j. apply (H (S j)).
Qed.

Lemma re_sub_none (m : matcher) (s : str) :
  (forall j, m (drop j s) = None) -> re_sub m s = s.
Proof. apply re_sub_aux_none. Qed.

Lemma re_search_none {A} (m : str -> option A) (s : str) :
  (forall j, m (drop j s) = None) -> re_search m s = false.
Proof.
  induction s as [|c s IH]; intros H; pose proof (H 0) as H0; simpl in H0 |- *;
    rewrite H0; [done|].
  apply IH. intros j. apply (H (S j)).
Qed.

Lemma re_search_here {A} (m : str -> option A) (s : str) (r : A) :
  m s = Some r -> re_search m s = true.
Proof. destruct s; simpl; intros ->; done. Qed.

Lemma try_longest_none {A} (f : str -> option A) (t : str) (n : nat) :
  (forall L, 1 <= L <= n -> f (drop L t) = None) -> try_longest f t n = None.
Proof.
  induction n as [|n IH]; intros H; simpl; [done|].
  rewrite (H (S n)) by lia. apply IH. intros L HL. apply H. lia.
Qed.

Lemma try_longest_some {A} (f : str -> option A) (t : str) (n L0 : nat) (r : A) :
  1 <= L0 <= n -> (forall L, L0 < L <= n -> f (drop L t) = None) ->
  f (drop L0 t) = Some r -> try_longest f t n = Some r.
Proof.
  induction n as [|n IH]; intros HL0 H Hr; [lia|]. simpl.
  destruct (decide (L0 = S n)) as [->|Hne]; [by rewrite Hr|].
  rewrite (H (S n)) by lia. apply IH; [lia| |done]. intros L HL. apply H. lia.
Qed.

Lemma input_tail_re_startswith (key prefix u g r : str) :
  input_tail_re key prefix u = Some (g, r) ->
  startswith u (key ++ "="%char :: dq :: prefix) = true.
Proof.
  unfold input_tail_re. destruct (expects _ u) as [s1|] eqn:E; [|done]. intros _.
  apply expects_inv in E as ->. apply startswith_app.
Qed.

Lemma input_re_none (key prefix s : str) :
  (forall j, startswith (drop j s) (key ++ "="%char :: dq :: prefix) = false) ->
  forall j, input_re key prefix (drop j s) = None.
Proof.
  intros H j. unfold input_re.
  destruct (expects (lit "<input") (drop j s)) as [t|] eqn:E; [|done]. simpl.
  apply try_longest_none. intros L _.
  destruct (input_tail_re key prefix (drop L t)) as [[g r]|] eqn:F; [|done].
  apply input_tail_re_startswith in F.
  apply expects_inv in E.
  assert (Ht : t = drop (j + 6) s) by (by rewrite <- drop_drop, E).
  rewrite Ht, drop_drop, H in F. discriminate.
Qed.

Lemma input_to_token_none (key prefix s : str) :
  (forall j, startswith (drop j s) (key ++ "="%char :: dq :: prefix) = false) ->
  forall j, input_to_token key prefix (drop j s) = None.
Proof. intros H j. unfold input_to_token. by rewrite (input_re_none key prefix s H j). Qed.

Lemma cb_element_parts (X : str) :
  cb_element (lit "cb-" ++ X) = lit "<input" ++ cb_head ++ X ++ dq :: cb_tail.
Proof. reflexivity. Qed.

Lemma pledge_element_parts (X : str) :
  pledge_element (lit "pledge_" ++ X) = lit "<input" ++ pledge_head ++ X ++ dq :: pledge_tail.
Proof. reflexivity. Qed.

Lemma startswith_nonoverlap (u p r : str) :
  startswith u p = false -> startswith p u = false -> startswith (u ++ r) p = false.
Proof.
  revert p; induction u as [|c u IH]; intros [|d p]; simpl; intros H1 H2;
    try discriminate.
  destruct (Ascii.eqb d c) eqn:E; simpl in *; [|done].
  apply Ascii.eqb_eq in E as ->. rewrite Ascii.eqb_refl in H2. simpl in H2. auto.
Qed.

Lemma startswith_dqfree (prefix Z Y pat : str) :
  forallb (not_char dq) Y = true ->
  (forall i, i <= length pat -> startswith Z (drop i pat ++ dq :: prefix) = false) ->
  startswith (Y ++ Z) (pat ++ dq :: prefix) = false.
Proof.
  revert pat; induction Y as [|c Y IH]; intros pat HY H; simpl.
  - apply (H 0). lia.
  - apply andb_true_iff in HY as [Hc HY]. unfold not_char in Hc.
    apply negb_true_iff in Hc.
    destruct pat as [|d pat]; cbn [app startswith].
    + by rewrite Ascii.eqb_sym, Hc.
    + destruct (Ascii.eqb d c); simpl; [|done].
      apply IH; [done|]. intros i Hi. apply (H (S i)). simpl; lia.
Qed.

(** No position of [Pc ++ X ++ Tc] from [j1] on starts a match of
    [pat ++ Q ++ prefix] when [X] holds no quote: the conditions on the fixed
    parts are finite checks. *)
Lemma positions_fail (Pc X Tc pat prefix : str) (j1 : nat) :
  forallb (not_char dq) X = true ->
  forallb (fun j => negb (startswith (drop j Pc) (pat ++ dq :: prefix))
                    && negb (startswith (pat ++ dq :: prefix) (drop j Pc)))
          (seq j1 (length Pc - j1)) = true ->
  forallb (fun i => negb (startswith Tc (drop i pat ++ dq :: prefix)))
          (seq 0 (S (length pat))) = true ->
  forallb (fun k => negb (startswith (drop k Tc) (pat ++ dq :: prefix)))
          (seq 0 (S (length Tc))) = true ->
  forall j, j1 <= j -> startswith (drop j (Pc ++ X ++ Tc)) (pat ++ dq :: prefix) = false.
Proof.
  intros HX HP HT HK j Hj.
  destruct (decide (j < length Pc)) as [Hlt|Hge].
  - rewrite drop_app_le by lia.
    pose proof (forallb_seq _ _ _ HP j ltac:(lia)) as Hj'. cbv beta in Hj'.
    apply andb_true_iff in Hj' as [H1 H2]. apply negb_true_iff in H1, H2.
    by apply startswith_nonoverlap.
  - rewrite drop_app_ge by lia.
    destruct (decide (j - length Pc <= length X)) as [HleX|HgtX].
    + rewrite drop_app_le by lia.
      apply startswith_dqfree; [by apply forallb_drop|].
      intros i Hi. pose proof (forallb_seq _ _ _ HT i ltac:(lia)) as Hi'.
      cbv beta in Hi'. by apply negb_true_iff in Hi'.
    + rewrite drop_app_ge by lia.
      destruct (decide (j - length Pc - length X <= length Tc)).
      * pose proof (forallb_seq _ _ _ HK (j - length Pc - length X) ltac:(lia)) as Hk'.
        cbv beta in Hk'. by apply negb_true_iff in Hk'.
      * rewrite drop_ge by lia. by destruct pat.
Qed.

Lemma input_re_elem (key prefix Hd X T' : str) (L0 : nat) :
  forallb (not_char ">") Hd = true ->
  1 <= L0 <= length Hd ->
  drop L0 Hd = key ++ "="%char :: dq :: prefix ->
  X <> [] -> forallb (not_char dq) X = true ->
  dropWhile (not_char ">") T' = [">"%char] ->
  (forall j, S L0 <= j ->
     startswith (drop j (Hd ++ X ++ dq :: T')) (key ++ "="%char :: dq :: prefix) = false) ->
  input_re key prefix (lit "<input" ++ Hd ++ X ++ dq :: T') = Some (prefix ++ X, []).
Proof.
  intros HHd HL0 Hdrop HXne HX HT Hpos. unfold input_re. rewrite expects_app. simpl.
  apply (try_longest_some _ _ _ L0).
  - rewrite takeWhile_app_all, length_app by done. lia.
  - intros L HL.
    destruct (input_tail_re key prefix (drop L _)) as [[g r]|] eqn:F; [|done].
    apply input_tail_re_startswith in F. rewrite Hpos in F by lia. discriminate.
  - rewrite drop_app_le by lia. rewrite Hdrop. unfold input_tail_re.
    rewrite expects_app. simpl.
    rewrite span1_app_stop by (done || (unfold not_char; by rewrite Ascii.eqb_refl)).
    simpl. by rewrite HT.
Qed.

Lemma input_re_cb (X : str) :
  X <> [] -> forallb (not_char dq) X = true ->
  input_re (lit "id") (lit "cb-") (cb_element (lit "cb-" ++ X)) = Some (lit "cb-" ++ X, []).
Proof.
  intros HXne HX. rewrite cb_element_parts.
  apply (input_re_elem _ _ _ _ _ 25); try done; [vm_compute; lia|].
  intros j Hj.
  apply (positions_fail cb_head X (dq :: cb_tail) (lit "id=") (lit "cb-") 26);
    [done | vm_compute; reflexivity | vm_compute; reflexivity | vm_compute; reflexivity | lia].
Qed.

Lemma input_re_pledge (X : str) :
  X <> [] -> forallb (not_char dq) X = true ->
  input_re (lit "name") (lit "pledge_") (pledge_element (lit "pledge_" ++ X))
  = Some (lit "pledge_" ++ X, []).
Proof.
  intros HXne HX. rewrite pledge_element_parts.
  apply (input_re_elem _ _ _ _ _ 25); try done; [vm_compute; lia|].
  intros j Hj.
  apply (positions_fail pledge_head X (dq :: pledge_tail) (lit "name=") (lit "pledge_") 26);
    [done | vm_compute; reflexivity | vm_compute; reflexivity | vm_compute; reflexivity | lia].
Qed.

Lemma encode_cb_element (X : str) :
  X <> [] -> forallb (not_char dq) X = true ->
  process_checkboxes (cb_element (lit "cb-" ++ X)) = "["%char :: lit "cb-" ++ X ++ ["]"%char].
Proof.
  intros HXne HX. unfold process_checkboxes. cbv zeta.
  rewrite (re_sub_whole (input_to_token (lit "id") (lit "cb-")) _
             ("["%char :: lit "cb-" ++ X ++ ["]"%char])).
  - apply re_sub_none. apply input_to_token_none. intros j.
    apply (positions_fail (lit "[cb-") X (lit "]") (lit "name=") (lit "pledge_") 0);
      [done | vm_compute; reflexivity | vm_compute; reflexivity | vm_compute; reflexivity | lia].
  - by rewrite cb_element_parts.
  - unfold input_to_token. by rewrite input_re_cb.
Qed.

Lemma encode_pledge_element (X : str) :
  X <> [] -> forallb (not_char dq) X = true ->
  process_checkboxes (pledge_element (lit "pledge_" ++ X))
  = "["%char :: lit "pledge_" ++ X ++ ["]"%char].
Proof.
  intros HXne HX. unfold process_checkboxes. cbv zeta.
  rewrite (re_sub_none (input_to_token (lit "id") (lit "cb-"))).
  - apply re_sub_whole; [by rewrite pledge_element_parts|].
    unfold input_to_token. by rewrite input_re_pledge.
  - apply input_to_token_none. intros j. rewrite pledge_element_parts, app_assoc.
    apply (positions_fail (lit "<input" ++ pledge_head) X (dq :: pledge_tail)
             (lit "id=") (lit "cb-") 0);
      [done | vm_compute; reflexivity | vm_compute; reflexivity | vm_compute; reflexivity | lia].
Qed.

Lemma expect_cons (c : ascii) (s : str) : expect c (c :: s) = Some s.
Proof. simpl. by rewrite Ascii.eqb_refl. Qed.

Lemma token_re_inv (p u g r : str) :
  token_re p u = Some (g, r) -> exists x, u = "["%char :: p ++ x ++ "]"%char :: r.
Proof.
  unfold token_re.
  destruct (expect "[" u) as [s1|] eqn:E1; [|done]. simpl.
  destruct (expects p s1) as [s2|] eqn:E2; [|done]. simpl.
  destruct (span1 (not_char "]") s2) as [[x s3]|] eqn:E3; [|done]. simpl.
  destruct (expect "]" s3) as [rest|] eqn:E4; [|done]. simpl. intros [= <- <-].
  apply expect_inv in E1, E4. apply expects_inv in E2. apply span1_inv in E3.
  subst. eauto.
Qed.

Lemma token_re_whole (p X : str) :
  X <> [] -> forallb (not_char "]") X = true ->
  token_re p ("["%char :: p ++ X ++ ["]"%char]) = Some (p ++ X, []).
Proof.
  intros HXne HX. unfold token_re. rewrite expect_cons. simpl.
  rewrite expects_app. simpl.
  rewrite span1_app_stop by (done || (unfold not_char; by rewrite Ascii.eqb_refl)).
  reflexivity.
Qed.

Lemma token_re_bracket (p u g r : str) :
  token_re p u = Some (g, r) -> forallb (not_char "]") u = false.
Proof.
  intros H. apply token_re_inv in H as [x ->]. simpl. rewrite !forallb_app. simpl.
  by rewrite !andb_false_r.
Qed.

Lemma token_re_startswith (p u g r : str) :
  token_re p u = Some (g, r) -> startswith u ("["%char :: p) = true.
Proof.
  intros H. apply token_re_inv in H as [x ->].
  change ("["%char :: p ++ x ++ "]"%char :: r) with (("["%char :: p) ++ (x ++ "]"%char :: r)).
  apply startswith_app.
Qed.

Lemma token_re_free (p el : str) :
  forallb (not_char "]") el = true -> re_search (token_re p) el = false.
Proof.
  intros H. apply re_search_none. intros j.
  destruct (token_re p (drop j el)) as [[g r]|] eqn:F; [|done].
  apply token_re_bracket in F. rewrite forallb_drop in F by done. discriminate.
Qed.

Lemma contains_drop (X p : str) (i : nat) :
  startswith (drop i X) p = true -> contains X p = true.
Proof.
  revert i; induction X as [|c X IH]; intros [|i]; simpl; intros H.
  - by rewrite H.
  - by rewrite H.
  - by rewrite H.
  - apply orb_true_iff. right. eauto.
Qed.

Lemma startswith_app_split (A B p : str) :
  startswith (A ++ B) p = true ->
  startswith A p = true \/ (length A < length p /\ startswith B (drop (length A) p) = true).
Proof.
  revert p; induction A as [|a A IH]; intros [|c p] H; simpl in *; auto.
  - right. split; [lia|done].
  - apply andb_true_iff in H as [Hc H].
    destruct (IH p H) as [H'|[Hl H']].
    + left. by rewrite Hc, H'.
    + right. split; [lia|done].
Qed.

Lemma no_occurrence_app (X B p : str) (i : nat) :
  contains X p = false ->
  (forall k, k < length p -> startswith B (drop k p) = false) ->
  startswith (drop i X ++ B) p = false.
Proof.
  intros HX HB. destruct (startswith (drop i X ++ B) p) eqn:E; [|done].
  apply startswith_app_split in E as [E|[Hl E]].
  - apply contains_drop in E. congruence.
  - rewrite HB in E by done. discriminate.
Qed.

Lemma decode_cb_token (X : str) :
  X <> [] -> forallb (not_char "]") X = true ->
  restore_checkboxes_line ("["%char :: lit "cb-" ++ X ++ ["]"%char]) = cb_element (lit "cb-" ++ X).
Proof.
  intros HXne HX. unfold restore_checkboxes_line.
  rewrite (re_search_here _ _ _ (token_re_whole (lit "cb-") X HXne HX)).
  rewrite (re_sub_whole (token_to_element (lit "cb-") cb_element) _ (cb_element (lit "cb-" ++ X)));
    [| done | unfold token_to_element; by rewrite token_re_whole].
  cbv beta iota zeta.
  rewrite token_re_free; [done|].
  rewrite cb_element_parts, !forallb_app, HX. reflexivity.
Qed.

Lemma pledge_token_no_cb (X : str) :
  contains X (lit "[cb-") = false ->
  re_search (token_re (lit "cb-")) ("["%char :: lit "pledge_" ++ X ++ ["]"%char]) = false.
Proof.
  intros HX. apply re_search_none. intros j.
  destruct (token_re _ _) as [[g r]|] eqn:F; [|done].
  apply token_re_startswith in F. revert F.
  change ("["%char :: lit "pledge_" ++ X ++ ["]"%char]) with (lit "[pledge_" ++ X ++ lit "]").
  change ("["%char :: lit "cb-") with (lit "[cb-").
  destruct (decide (j < 8)) as [Hj|Hj].
  - rewrite drop_app_le by (cbn; lia).
    pose proof (forallb_seq
      (fun j => negb (startswith (drop j (lit "[pledge_")) (lit "[cb-"))
                && negb (startswith (lit "[cb-") (drop j (lit "[pledge_"))))
      0 8 ltac:(vm_compute; reflexivity) j ltac:(lia)) as Hj'.
    cbv beta in Hj'. apply andb_true_iff in Hj' as [H1 H2].
    apply negb_true_iff in H1, H2. by rewrite startswith_nonoverlap.
  - rewrite drop_app_ge by (cbn; lia). rewrite drop_app.
    rewrite no_occurrence_app; [done|done|].
    intros k Hk. destruct (j - length (lit "[pledge_") - length X) as [|m].
    + destruct k as [|[|[|[|k]]]]; try reflexivity. cbn in Hk. lia.
    + rewrite (drop_ge (lit "]")) by (cbn; lia).
      destruct k as [|[|[|[|k]]]]; try reflexivity. cbn in Hk. lia.
Qed.

Lemma decode_pledge_token (X : str) :
  X <> [] -> forallb (not_char "]") X = true -> contains X (lit "[cb-") = false ->
  restore_checkboxes_line ("["%char :: lit "pledge_" ++ X ++ ["]"%char])
  = pledge_element (lit "pledge_" ++ X).
Proof.
  intros HXne HX Hcb. unfold restore_checkboxes_line.
  rewrite pledge_token_no_cb by done. cbv beta iota zeta.
  rewrite (re_search_here _ _ _ (token_re_whole (lit "pledge_") X HXne HX)).
  apply re_sub_whole; [done|]. unfold token_to_element. by rewrite token_re_whole.
Qed.

(** C3, counterexample: the token [[cb-aQb]] (Q a double quote) decodes to
    an element whose [id] attribute is cut at the quote by the encoder, so
    decode, encode, decode gives the element for [cb-a], not the first one. *)
Lemma checkbox_canonical_counterexample :
  restore_checkboxes_line ("["%char :: lit "cb-a" ++ dq :: lit "b]")
  = cb_element (lit "cb-a" ++ dq :: lit "b")
  /\ process_checkboxes (restore_checkboxes_line ("["%char :: lit "cb-a" ++ dq :: lit "b]"))
     = lit "[cb-a]"
  /\ restore_checkboxes_line
       (process_checkboxes (restore_checkboxes_line ("["%char :: lit "cb-a" ++ dq :: lit "b]")))
     <> restore_checkboxes_line ("["%char :: lit "cb-a" ++ dq :: lit "b]").
Proof.
  split; [vm_compute; reflexivity|]. split; [vm_compute; reflexivity|].
  vm_compute. discriminate.
Qed.

(** C3 (amended): for a token [[cb-X]] whose identifier part X is non-empty
    and holds no [']'] and no double quote, decoding gives the fixed [cb-]
    element with identifier [cb-X], encoding that element gives back the
    token, and decode, encode, decode equals decode.  The same holds for
    [[pledge_X]] and the fixed [pledge_] element when X moreover does not
    contain [[cb-], which the [cb-] decoder would rewrite first. *)
Theorem checkbox_codec_canonical :
  (forall X : str,
     X <> [] -> forallb (not_char "]") X = true -> forallb (not_char dq) X = true ->
     restore_checkboxes_line ("["%char :: lit "cb-" ++ X ++ ["]"%char])
     = cb_element (lit "cb-" ++ X)
     /\ process_checkboxes (cb_element (lit "cb-" ++ X))
        = "["%char :: lit "cb-" ++ X ++ ["]"%char]
     /\ restore_checkboxes_line (process_checkboxes
          (restore_checkboxes_line ("["%char :: lit "cb-" ++ X ++ ["]"%char])))
        = restore_checkboxes_line ("["%char :: lit "cb-" ++ X ++ ["]"%char]))
  /\ (forall X : str,
     X <> [] -> forallb (not_char "]") X = true -> forallb (not_char dq) X = true ->
     contains X (lit "[cb-") = false ->
     restore_checkboxes_line ("["%char :: lit "pledge_" ++ X ++ ["]"%char])
     = pledge_element (lit "pledge_" ++ X)
     /\ process_checkboxes (pledge_element (lit "pledge_" ++ X))
        = "["%char :: lit "pledge_" ++ X ++ ["]"%char]
     /\ restore_checkboxes_line (process_checkboxes
          (restore_checkboxes_line ("["%char :: lit "pledge_" ++ X ++ ["]"%char])))
        = restore_checkboxes_line ("["%char :: lit "pledge_" ++ X ++ ["]"%char])).
Proof.
  split.
  - intros X HXne HX HXq.
    pose proof (decode_cb_token X HXne HX) as D.
    pose proof (encode_cb_element X HXne HXq) as E.
    rewrite D, E, D. auto.
  - intros X HXne HX HXq Hcb.
    pose proof (decode_pledge_token X HXne HX Hcb) as D.
    pose proof (encode_pledge_element X HXne HXq) as E.
    rewrite D, E, D. auto.
Qed.

Lemma checkbox_codec_canonical_witness :
  restore_checkboxes_line (lit "[cb-1-1]") = cb_element (lit "cb-1-1")
  /\ process_checkboxes (cb_element (lit "cb-1-1")) = lit "[cb-1-1]"
  /\ restore_checkboxes_line (lit "[pledge_1_2]") = pledge_element (lit "pledge_1_2")
  /\ process_checkboxes (pledge_element (lit "pledge_1_2")) = lit "[pledge_1_2]".
Proof.
  destruct checkbox_codec_canonical as [Hcb Hpl].
  destruct (Hcb (lit "1-1")) as [H1 [H2 _]]; try reflexivity; try discriminate.
  destruct (Hpl (lit "1_2")) as [H3 [H4 _]]; try reflexivity; try discriminate.
  split; [exact H1|]. split; [exact H2|]. split; [exact H3|exact H4].
Defined.

(** ** Flattening ([unindent_blocks]) *)

Lemma dropWhile_nil (p : ascii -> bool) (l : str) :
  dropWhile p l = [] <-> forallb p l = true.
Proof.
  induction l as [|c l IH]; simpl; [done|].
  destruct (p c); simpl; [done|]. split; discriminate.
Qed.

Lemma forallb_dropWhile (p : ascii -> bool) (l : str) :
  forallb p (dropWhile p l) = forallb p l.
Proof. induction l as [|c l IH]; simpl; [done|]. by destruct (p c) eqn:E; simpl; rewrite ?E. Qed.

Lemma forallb_rev {A} (p : A -> bool) (l : list A) : forallb p (rev l) = forallb p l.
Proof.
  induction l as [|c l IH]; simpl; [done|].
  rewrite forallb_app, IH. simpl. by rewrite andb_true_r, andb_comm.
Qed.

Lemma rev_nil_iff {A} (l : list A) : rev l = [] <-> l = [].
Proof.
  split; intros H; [|by subst].
  apply (f_equal (@length A)) in H. rewrite length_rev in H. by destruct l.
Qed.

Lemma strip_blank (line : str) : str_eqb (strip line) [] = forallb is_space line.
Proof.
  apply eq_true_iff_eq. rewrite str_eqb_eq. unfold strip, rstrip, lstrip.
  rewrite rev_nil_iff, dropWhile_nil, forallb_rev, forallb_dropWhile. done.
Qed.

Lemma length_takeWhile_dropWhile (p : ascii -> bool) (l : str) :
  length l = length (takeWhile p l) + length (dropWhile p l).
Proof. rewrite <- length_app. by rewrite takeWhile_dropWhile. Qed.

Lemma startswith_repeat (c : ascii) (n : nat) (line : str) :
  startswith line (repeat c n) = (n <=? length (takeWhile (is_char c) line))%nat.
Proof.
  revert line; induction n as [|n IH]; intros [|x line]; simpl; try done.
  unfold is_char. destruct (Ascii.eqb x c) eqn:E.
  - apply Ascii.eqb_eq in E as ->. rewrite Ascii.eqb_refl. simpl. apply IH.
  - rewrite Ascii.eqb_sym, E. done.
Qed.

Lemma unindent_indent_test (d : nat) (line : str) :
  ((Z.of_nat d * 4) <=? (Z.of_nat (length line) - Z.of_nat (length (lstrip_spaces line))))%Z
  = startswith line (repeat " "%char (4 * d)).
Proof.
  rewrite startswith_repeat. unfold lstrip_spaces.
  rewrite (length_takeWhile_dropWhile (is_char " ") line) at 1.
  destruct (Nat.leb_spec (4 * d) (length (takeWhile (is_char " ") line)));
    [apply Z.leb_le | apply Z.leb_gt]; lia.
Qed.

Lemma slice_from_nat (line : str) (n : nat) : slice_from line (Z.of_nat n) = drop n line.
Proof.
  unfold slice_from, py_index.
  replace (Z.of_nat n <? 0)%Z with false by (symmetry; apply Z.ltb_ge; lia).
  by rewrite Nat2Z.id.
Qed.

(** C5: on a content line (neither block start nor block end) at depth [d],
    the flattening step emits [content_rule d line], that is, the line
    without its first [4 d] characters when it starts with [4 d] spaces,
    otherwise a blank line for a blank line and the line without its leading
    whitespace for any other; the step may add one blank line after it, and
    the depth stays [d]. *)
Theorem flatten_content_rule (d : nat) (new_lines : list str) (line : str) :
  is_block_start line = false -> is_block_end line = false ->
  exists extra : list str, (extra = [] \/ extra = [[]])
    /\ unindent_step (Z.of_nat d, new_lines) line
       = (Z.of_nat d, new_lines ++ content_rule d line :: extra).
Proof.
  intros Hs He. unfold unindent_step. rewrite Hs, He. cbv zeta.
  rewrite unindent_indent_test.
  assert (Hp : (if startswith line (repeat " "%char (4 * d))
                then slice_from line (Z.of_nat d * 4)
                else if str_eqb (strip line) [] then [] else lstrip line)
               = content_rule d line).
  { unfold content_rule. rewrite strip_blank.
    replace (Z.of_nat d * 4)%Z with (Z.of_nat (4 * d)) by lia.
    by rewrite slice_from_nat. }
  rewrite Hp.
  match goal with
  | |- context [if ?b then _ else _] => destruct b
  end.
  - exists [[]]. auto.
  - exists []. auto.
Qed.

Lemma flatten_content_rule_witness :
  exists extra : list str, (extra = [] \/ extra = [[]])
    /\ unindent_step (Z.of_nat 1, []) (lit "      text")
       = (Z.of_nat 1, [] ++ content_rule 1 (lit "      text") :: extra).
Proof.
  apply (flatten_content_rule 1 [] (lit "      text")); reflexivity.
Defined.

(** ** Depth and indent-stack invariants *)

Lemma unindent_step_depth (st : Z * list str) (line : str) :
  (0 <= st.1)%Z -> (0 <= (unindent_step st line).1)%Z.
Proof.
  destruct st as [depth out]. simpl. intros H. unfold unindent_step.
  destruct (is_block_start line); simpl; [lia|].
  destruct (is_block_end line); simpl.
  - destruct (depth - 1 <? 0)%Z eqn:E; simpl; [lia|]. apply Z.ltb_ge in E. lia.
  - match goal with |- context [if ?b then _ else _] => destruct b end; simpl; lia.
Qed.

Lemma unindent_fold_depth (lines : list str) (st : Z * list str) :
  (0 <= st.1)%Z -> (0 <= (fold_left unindent_step lines st).1)%Z.
Proof.
  revert st; induction lines as [|l ls IH]; intros st H; simpl; [done|].
  apply IH. by apply unindent_step_depth.
Qed.

Lemma handle_line_stack (buf : list str) (stk : list (Z * option str)) (line : str) :
  (exists s, stk = s ++ [(0%Z, None)]) -> Forall (fun fr => (0 <= fr.1)%Z) stk ->
  exists buf' stk', handle_line buf stk line = Some (buf', stk')
    /\ (exists s, stk' = s ++ [(0%Z, None)]) /\ Forall (fun fr => (0 <= fr.1)%Z) stk'.
Proof.
  intros [s Hs] Hpos. unfold handle_line.
  destruct stk as [|[ci cbt] stk'] eqn:Estk; [by destruct s|].
  cbn [head mbind option_bind].
  apply Forall_cons in Hpos as Hpos'. destruct Hpos' as [Hci Hrest]. simpl in Hci.
  destruct (start_match line) as [[ty rest]|].
  - eexists _, _. split; [reflexivity|]. split.
    + exists (((ci + block_increment ty rest)%Z, Some ty) :: s). by rewrite Hs.
    + constructor; [|done]. simpl.
      assert (0 <= block_increment ty rest)%Z.
      { unfold block_increment. repeat case_match; lia. }
      lia.
  - destruct (is_block_end line).
    + destruct s as [|x s].
      { simpl in Hs. inversion Hs; subst. cbn.
        eexists _, _. split; [reflexivity|]. split; [by exists nil|]. done. }
      simpl in Hs. injection Hs as -> Hs'. subst stk'.
      match goal with
      | |- context [(1 <? ?n)%nat] =>
          replace (1 <? n)%nat with true
            by (symmetry; apply Nat.ltb_lt; simpl; rewrite ?length_app; simpl; lia)
      end.
      cbn [tail].
      destruct s as [|[pi pt] s]; cbn [app head mbind option_bind].
      { eexists _, _. split; [reflexivity|]. split; [by exists nil|]. done. }
      { eexists _, _. split; [reflexivity|]. split; [by exists ((pi, pt) :: s)|]. done. }
    + cbv zeta.
      repeat match goal with |- context [if ?b then _ else _] => destruct b end;
        eexists _, _; (split; [reflexivity|]); (split; [by exists s|done]).
Qed.

Lemma pc_step_stack (st : pc_state) (line : str) :
  (exists s, indent_stack st = s ++ [(0%Z, None)]) ->
  Forall (fun fr => (0 <= fr.1)%Z) (indent_stack st) ->
  exists st', pc_step st line = Some st'
    /\ (exists s, indent_stack st' = s ++ [(0%Z, None)])
    /\ Forall (fun fr => (0 <= fr.1)%Z) (indent_stack st').
Proof.
  intros Hs Hpos. unfold pc_step.
  destruct (re_find file_marker_re line).
  - eexists. split; [reflexivity|]. simpl. split; [by exists nil|]. repeat constructor. simpl. lia.
  - destruct (current_file st); [|eauto].
    destruct (handle_line_stack (current_buffer st) (indent_stack st) (unescape line) Hs Hpos)
      as (buf' & stk' & Hh & Hs' & Hpos').
    rewrite Hh. simpl. eauto.
Qed.

Lemma pc_run_stack (lines : list str) (st : pc_state) :
  (exists s, indent_stack st = s ++ [(0%Z, None)]) ->
  Forall (fun fr => (0 <= fr.1)%Z) (indent_stack st) ->
  forall n, exists st', pc_run st (take n lines) = Some st'
    /\ (exists s, indent_stack st' = s ++ [(0%Z, None)])
    /\ Forall (fun fr => (0 <= fr.1)%Z) (indent_stack st').
Proof.
  revert st; induction lines as [|l ls IH]; intros st Hs Hpos [|n]; simpl; eauto.
  destruct (pc_step_stack st l Hs Hpos) as (st1 & -> & Hs1 & Hpos1). simpl.
  by apply IH.
Qed.

Lemma process_content_total (content : str) : process_content content <> None.
Proof.
  assert (Hinit1 : exists s, indent_stack pc_init = s ++ [(0%Z, None)]) by (by exists nil).
  assert (Hinit2 : Forall (fun fr => (0 <= fr.1)%Z) (indent_stack pc_init))
    by (repeat constructor; simpl; lia).
  destruct (pc_run_stack (presplit content) pc_init Hinit1 Hinit2
              (length (presplit content))) as (st & Hrun & _).
  rewrite take_ge in Hrun by lia.
  unfold process_content. rewrite Hrun. simpl. discriminate.
Qed.

(** C4: flattening keeps its depth at zero or above after every line of any
    input; reconstruction never fails on any input, and after every line its
    indent stack still ends with the seed frame [(0, None)] and holds no
    negative indent.  This covers inputs with unmatched block-end markers. *)
Theorem depth_clamping_robust :
  (forall (lines : list str) (n : nat), (0 <= (unindent_run (take n lines)).1)%Z)
  /\ (forall content : str,
        process_content content <> None
        /\ forall n : nat, exists st,
             pc_run pc_init (take n (presplit content)) = Some st
             /\ (exists s, indent_stack st = s ++ [(0%Z, None)])
             /\ Forall (fun fr => (0 <= fr.1)%Z) (indent_stack st)).
Proof.
  split.
  - intros lines n. apply unindent_fold_depth. simpl. lia.
  - intros content.
    assert (Hinit1 : exists s, indent_stack pc_init = s ++ [(0%Z, None)]) by (by exists nil).
    assert (Hinit2 : Forall (fun fr => (0 <= fr.1)%Z) (indent_stack pc_init))
      by (repeat constructor; simpl; lia).
    split.
    + apply process_content_total.
    + apply pc_run_stack; assumption.
Qed.

(** ** The import pre-pass *)

Lemma dropWhile_app_all (p : ascii -> bool) (A B : str) :
  forallb p A = true -> dropWhile p (A ++ B) = dropWhile p B.
Proof.
  induction A as [|c A IH]; simpl; intros H; [done|].
  apply andb_true_iff in H as [-> H]. auto.
Qed.

Lemma dropWhile_app_notall (p : ascii -> bool) (A B : str) :
  forallb p A = false -> dropWhile p (A ++ B) = dropWhile p A ++ B.
Proof.
  induction A as [|c A IH]; simpl; intros H; [done|].
  destruct (p c); simpl in *; auto.
Qed.

Lemma rstrip_app_spaces (X W : str) :
  forallb is_space W = true -> rstrip (X ++ W) = rstrip X.
Proof.
  intros HW. unfold rstrip. rewrite rev_app_distr, dropWhile_app_all; [done|].
  by rewrite forallb_rev.
Qed.

Lemma rstrip_last (X : str) (d : ascii) :
  is_space d = false -> rstrip (X ++ [d]) = X ++ [d].
Proof.
  intros Hd. unfold rstrip. rewrite rev_app_distr. simpl. rewrite Hd.
  change (d :: rev X) with (rev [d] ++ rev X). by rewrite <- rev_app_distr, rev_involutive.
Qed.

Lemma sigil_app (X W : str) : X ++ lit "///" ++ W = (X ++ lit "//") ++ ["/"%char] ++ W.
Proof. by rewrite <- !app_assoc. Qed.

Lemma strip_sigil_only (A W : str) (c : ascii) :
  forallb is_space A = true -> is_space c = true -> forallb is_space W = true ->
  strip (A ++ c :: lit "///" ++ W) = lit "///".
Proof.
  intros HA Hc HW. unfold strip, lstrip.
  rewrite dropWhile_app_all by done. simpl dropWhile at 1. rewrite Hc.
  change (dropWhile is_space (lit "///" ++ W)) with (lit "///" ++ W).
  change ("/"%char :: "/"%char :: "/"%char :: W) with (lit "///" ++ W).
  rewrite rstrip_app_spaces by done. reflexivity.
Qed.

Lemma strip_sigil (A W : str) (c : ascii) :
  forallb is_space A = false -> is_space c = true -> forallb is_space W = true ->
  strip (A ++ c :: lit "///" ++ W) = lstrip A ++ c :: lit "///".
Proof.
  intros HA Hc HW. unfold strip, lstrip.
  rewrite dropWhile_app_notall by done.
  rewrite app_comm_cons, app_assoc, rstrip_app_spaces by done.
  replace (dropWhile is_space A ++ c :: lit "///")
    with ((dropWhile is_space A ++ c :: lit "//") ++ ["/"%char])
    by (by rewrite <- app_assoc).
  by rewrite rstrip_last.
Qed.

Lemma re_search_app {A} (m : str -> option A) (X Y : str) (r : A) :
  m Y = Some r -> re_search m (X ++ Y) = true.
Proof.
  intros H. induction X as [|c X IH]; simpl.
  - by apply (re_search_here m Y r).
  - destruct (m (c :: X ++ Y)); [done|]. exact IH.
Qed.

Lemma re_search_some {A} (m : str -> option A) (s : str) :
  re_search m s = true -> exists j r, j <= length s /\ m (drop j s) = Some r.
Proof.
  induction s as [|c s IH]; simpl; intros H.
  - destruct (m []) as [r|] eqn:E; [|done]. exists 0, r. split; [lia|done].
  - destruct (m (c :: s)) as [r|] eqn:E.
    + exists 0, r. split; [lia|done].
    + destruct (IH H) as (j & r & Hj & Hm). exists (S j), r. split; [lia|done].
Qed.

Lemma startswith_inv (s p : str) : startswith s p = true -> s = p ++ drop (length p) s.
Proof.
  revert s; induction p as [|c p IH]; intros [|d s]; simpl; intros H; try done.
  apply andb_true_iff in H as [Hc H]. apply Ascii.eqb_eq in Hc as ->. f_equal. auto.
Qed.

Lemma space_no_slash (W : str) : forallb is_space W = true -> startswith W (lit "/") = false.
Proof.
  destruct W as [|a W]; [done|]. cbn [forallb startswith lit list_ascii_of_string].
  intros H. apply andb_true_iff in H as [Ha _].
  destruct (Ascii.eqb "/" a) eqn:E; [|done]. apply Ascii.eqb_eq in E. subst a. discriminate.
Qed.

Lemma rfind_aux_none (s p : str) (i best : Z) :
  (forall j, startswith (drop j s) p = false) -> rfind_aux s p i best = best.
Proof.
  revert i best; induction s as [|c s IH]; intros i best H;
    pose proof (H 0) as H0; simpl in H0 |- *; rewrite H0.
  - done.
  - apply IH. intros j. apply (H (S j)).
Qed.

Lemma rfind_aux_last (s p : str) (i best : Z) (k : nat) :
  startswith (drop k s) p = true -> (forall j, k < j -> startswith (drop j s) p = false) ->
  rfind_aux s p i best = (i + Z.of_nat k)%Z.
Proof.
  revert i best k; induction s as [|c s IH]; intros i best k Hk Hj; simpl.
  - destruct k; simpl in *.
    + rewrite Hk. lia.
    + specialize (Hj (S (S k)) ltac:(lia)). simpl in Hj. congruence.
  - destruct k as [|k].
    + simpl in Hk. rewrite Hk. rewrite rfind_aux_none; [lia|].
      intros j. apply (Hj (S j)). lia.
    + rewrite (IH (i + 1)%Z _ k Hk); [lia|].
      intros j Hjk. apply (Hj (S j)). lia.
Qed.

Lemma startswith_length (s p : str) : startswith s p = true -> length p <= length s.
Proof. intros H. apply startswith_inv in H. rewrite H, length_app. lia. Qed.

Lemma space_no_slash' (W q : str) :
  forallb is_space W = true -> startswith W ("/"%char :: q) = false.
Proof.
  destruct W as [|a W]; [done|]. cbn [forallb startswith].
  intros H. apply andb_true_iff in H as [Ha _].
  destruct (Ascii.eqb "/" a) eqn:E; [|done]. apply Ascii.eqb_eq in E. subst a. discriminate.
Qed.

Lemma rfind_sigil (A W : str) (c : ascii) :
  forallb is_space W = true ->
  rfind (A ++ c :: lit "///" ++ W) (lit "///") = Z.of_nat (length A + 1).
Proof.
  intros HW. unfold rfind.
  replace (A ++ c :: lit "///" ++ W) with ((A ++ [c]) ++ lit "///" ++ W)
    by (by rewrite <- app_assoc).
  rewrite (rfind_aux_last _ _ _ _ (length A + 1)); [lia| |].
  - rewrite drop_app_length' by (rewrite length_app; simpl; lia). apply startswith_app.
  - intros j Hj. rewrite drop_app_ge by (rewrite length_app; simpl; lia).
    rewrite length_app. simpl length at 2.
    remember (j - (length A + 1)) as m eqn:Hm.
    rewrite drop_app.
    destruct (startswith _ (lit "///")) eqn:E; [|done].
    apply startswith_app_split in E as [E|[Hl E]].
    + apply startswith_length in E. rewrite length_drop in E. simpl in E. lia.
    + rewrite length_drop in E, Hl. simpl length in E, Hl.
      assert (Hd : drop (3 - m) (lit "///") = "/"%char :: drop (S (3 - m)) (lit "///")).
      { destruct (3 - m) as [|[|[|k]]]; [reflexivity..|simpl in Hl; lia]. }
      rewrite Hd, space_no_slash' in E; [discriminate|]. by apply forallb_drop.
Qed.

Lemma sigil_tail_re_ok (W : str) (c : ascii) :
  is_space c = true -> forallb is_space W = true -> sigil_tail_re (c :: lit "///" ++ W) = Some tt.
Proof.
  intros Hc HW. unfold sigil_tail_re. rewrite Hc, startswith_app.
  change (drop 3 (lit "///" ++ W)) with W. by rewrite HW.
Qed.

Lemma presplit_line_split (A W : str) (c : ascii) :
  forallb is_space A = false -> is_space c = true -> forallb is_space W = true ->
  presplit_line (A ++ c :: lit "///" ++ W) = [A ++ [c]; lit "///" ++ W].
Proof.
  intros HA Hc HW. unfold presplit_line. rewrite strip_sigil by done.
  replace (endswith (lstrip A ++ c :: lit "///") (lit "///")) with true.
  2:{ symmetry. unfold endswith.
      replace (lstrip A ++ c :: lit "///") with ((lstrip A ++ [c]) ++ lit "///")
        by (by rewrite <- app_assoc).
      rewrite rev_app_distr. apply startswith_app. }
  replace (str_eqb (lstrip A ++ c :: lit "///") (lit "///")) with false.
  2:{ symmetry. destruct (str_eqb _ _) eqn:E; [|done].
      apply str_eqb_eq, (f_equal (@length ascii)) in E.
      rewrite length_app in E. simpl in E. lia. }
  rewrite (re_search_app _ A (c :: lit "///" ++ W) tt) by (by apply sigil_tail_re_ok).
  cbv zeta. simpl andb. rewrite rfind_sigil by done.
  unfold slice_to, slice_from, py_index.
  replace (Z.of_nat (length A + 1) <? 0)%Z with false by (symmetry; apply Z.ltb_ge; lia).
  rewrite Nat2Z.id.
  replace (A ++ c :: lit "///" ++ W) with ((A ++ [c]) ++ lit "///" ++ W)
    by (by rewrite <- app_assoc).
  rewrite take_app_length', drop_app_length' by (rewrite length_app; simpl; lia).
  reflexivity.
Qed.

Lemma presplit_line_other (line : str) :
  (forall A W c, forallb is_space A = false -> is_space c = true ->
     forallb is_space W = true -> line <> A ++ c :: lit "///" ++ W) ->
  presplit_line line = [line].
Proof.
  intros H. unfold presplit_line.
  destruct (endswith (strip line) (lit "///") && negb (str_eqb (strip line) (lit "///")))
    eqn:E1; [|done].
  destruct (re_search sigil_tail_re line) eqn:E2; [|done].
  exfalso. apply re_search_some in E2 as (j & [] & Hj & Hm).
  unfold sigil_tail_re in Hm. destruct (drop j line) as [|c s'] eqn:Ed; [done|].
  destruct (is_space c && startswith s' (lit "///") && forallb is_space (drop 3 s')) eqn:Ec;
    [|done].
  apply andb_true_iff in Ec as [Ec HW]. apply andb_true_iff in Ec as [Hc Hs'].
  apply startswith_inv in Hs'. change (length (lit "///")) with 3 in Hs'.
  assert (Hline : line = take j line ++ c :: lit "///" ++ drop 3 s').
  { rewrite <- Hs', <- Ed. symmetry. apply take_drop. }
  destruct (forallb is_space (take j line)) eqn:HA.
  - rewrite Hline, strip_sigil_only in E1 by done.
    rewrite str_eqb_refl, andb_false_r in E1. discriminate.
  - exact (H _ _ _ HA Hc HW Hline).
Qed.

(** C7, counterexample: [ab///] ends with the sigil and is not the sigil
    alone, yet the pre-pass leaves it whole: the code splits only when a
    whitespace character precedes the sigil. *)
Lemma presplit_counterexample :
  endswith (strip (lit "ab///")) (lit "///") = true
  /\ str_eqb (strip (lit "ab///")) (lit "///") = false
  /\ presplit_line (lit "ab///") = [lit "ab///"].
Proof. split; [|split]; vm_compute; reflexivity. Qed.

(** C7 (amended): the pre-pass splits a line exactly when it is
    [A ++ c :: ///] followed by whitespace [W], with [c] a whitespace character
    and [A] not all whitespace; the pieces are [A ++ [c]] (the text before
    the final sigil) and the sigil with the trailing whitespace [W].  Every
    other line passes through unchanged. *)
Theorem presplit_line_spec :
  (forall (A W : str) (c : ascii),
     forallb is_space A = false -> is_space c = true -> forallb is_space W = true ->
     presplit_line (A ++ c :: lit "///" ++ W) = [A ++ [c]; lit "///" ++ W])
  /\ (forall line : str,
        (forall (A W : str) (c : ascii),
           forallb is_space A = false -> is_space c = true ->
           forallb is_space W = true -> line <> A ++ c :: lit "///" ++ W) ->
        presplit_line line = [line]).
Proof. split; [exact presplit_line_split | exact presplit_line_other]. Qed.

Lemma presplit_line_spec_witness :
  presplit_line (lit "text" ++ " "%char :: lit "///" ++ []) = [lit "text" ++ [" "%char]; lit "///" ++ []].
Proof.
  apply (proj1 presplit_line_spec (lit "text") [] " "%char); reflexivity.
Defined.

(** ** Reconstruction increments *)

(** C6: a block-start line met with [(c, _)] on top of the indent stack is
    emitted after [c] spaces and pushes a frame [(c + increment, type)],
    where the increment is 2 for an html block whose rest of tag contains
    [ul.tasklist] or [li], 4 for any other html block, 0 for details and 4
    for any other type.  A content line under a details frame [(c, details)]
    is emitted after [c + 4] spaces when its stripped form starts with
    [type:] or [open:], and after [c] spaces otherwise. *)
Theorem reconstruction_indent_increments :
  (forall (buf : list str) (stk : list (Z * option str)) (c : Z) (t : option str)
          (line block_type rest : str),
     start_match line = Some (block_type, rest) ->
     handle_line buf ((c, t) :: stk) line
     = Some (buf ++ [spaces c ++ line],
             ((c + block_increment block_type rest)%Z, Some block_type) :: (c, t) :: stk))
  /\ (forall rest, contains rest (lit "ul.tasklist") = true ->
        block_increment (lit "html") rest = 2%Z)
  /\ (forall rest, contains rest (lit "li") = true -> block_increment (lit "html") rest = 2%Z)
  /\ (forall rest, contains rest (lit "ul.tasklist") = false -> contains rest (lit "li") = false ->
        block_increment (lit "html") rest = 4%Z)
  /\ (forall rest, block_increment (lit "details") rest = 0%Z)
  /\ (forall block_type rest, block_type <> lit "html" -> block_type <> lit "details" ->
        block_increment block_type rest = 4%Z)
  /\ (forall (buf : list str) (stk : list (Z * option str)) (c : Z) (line : str),
        start_match line = None -> is_block_end line = false ->
        handle_line buf ((c, Some (lit "details")) :: stk) line
        = Some (buf ++ [spaces (c + if startswith (strip line) (lit "type:")
                                       || startswith (strip line) (lit "open:")
                                    then 4 else 0) ++ line],
                (c, Some (lit "details")) :: stk)).
Proof.
  split; [|split; [|split; [|split; [|split; [|split]]]]].
  - intros buf stk c t line block_type rest H. unfold handle_line.
    cbn [head mbind option_bind]. by rewrite H.
  - intros rest H. unfold block_increment. by rewrite str_eqb_refl, H.
  - intros rest H. unfold block_increment. rewrite str_eqb_refl, H.
    by destruct (contains rest (lit "ul.tasklist")).
  - intros rest H1 H2. unfold block_increment. by rewrite str_eqb_refl, H1, H2.
  - intros rest. reflexivity.
  - intros block_type rest H1 H2. unfold block_increment.
    destruct (str_eqb block_type (lit "html")) eqn:E1; [by apply str_eqb_eq in E1|].
    destruct (str_eqb block_type (lit "details")) eqn:E2; [by apply str_eqb_eq in E2|].
    reflexivity.
  - intros buf stk c line Hs He. unfold handle_line.
    cbn [head mbind option_bind]. rewrite Hs, He. cbv zeta. rewrite str_eqb_refl.
    destruct (startswith (strip line) (lit "type:") || startswith (strip line) (lit "open:"));
      by rewrite ?Z.add_0_r.
Qed.

Lemma reconstruction_indent_increments_witness :
  handle_line [] [(4%Z, Some (lit "admonition")); (0%Z, None)] (lit "/// html | ul.tasklist")
  = Some ([spaces 4 ++ lit "/// html | ul.tasklist"],
          ((4 + block_increment (lit "html") (lit " | ul.tasklist"))%Z, Some (lit "html"))
          :: [(4%Z, Some (lit "admonition")); (0%Z, None)])
  /\ block_increment (lit "html") (lit " | ul.tasklist") = 2%Z
  /\ block_increment (lit "html") (lit " | li") = 2%Z
  /\ block_increment (lit "html") (lit " | div") = 4%Z
  /\ block_increment (lit "tab") (lit " | T") = 4%Z
  /\ handle_line [] [(2%Z, Some (lit "details")); (0%Z, None)] (lit "type: info")
     = Some ([] ++ [spaces (2 + if startswith (strip (lit "type: info")) (lit "type:")
                                  || startswith (strip (lit "type: info")) (lit "open:")
                               then 4 else 0) ++ lit "type: info"],
             [(2%Z, Some (lit "details")); (0%Z, None)]).
Proof.
  destruct reconstruction_indent_increments as (Hs & Hu & Hl & Hh & _ & Ho & Hd).
  split; [apply Hs; reflexivity|].
  split; [apply Hu; reflexivity|].
  split; [apply Hl; reflexivity|].
  split; [apply Hh; reflexivity|].
  split; [apply Ho; discriminate|].
  apply Hd; reflexivity.
Defined.

(** ** Anonymization *)

Lemma anonymize_row_lookup {V : Type} (row : gmap string V) (k : string) :
  anonymize_row row !! k = if decide (k ∈ EXCLUDED_COLUMNS) then None else row !! k.
Proof.
  unfold anonymize_row. rewrite map_lookup_filter.
  destruct (row !! k) as [v|]; simpl; repeat case_guard; case_decide; naive_solver.
Qed.

Lemma anonymize_row_agree {V : Type} (r1 r2 : gmap string V) :
  (forall k, k ∉ EXCLUDED_COLUMNS -> r1 !! k = r2 !! k) ->
  anonymize_row r1 = anonymize_row r2.
Proof.
  intros H. apply map_eq. intros k. rewrite !anonymize_row_lookup.
  case_decide; [done|]. auto.
Qed.

(** C10: every record of [anonymize_data data] is the anonymized form of the
    input record at the same position: it has no key of [EXCLUDED_COLUMNS]
    and maps every other key to the input's value (or lacks it, as the input
    does).  Two input lists whose records pairwise agree on every key outside
    [EXCLUDED_COLUMNS] give the same output. *)
Theorem anonymize_noninterference :
  (forall (V : Type) (data : option (list (gmap string V))) (i : nat) (r : gmap string V),
     anonymize_data data !! i = Some r ->
     exists row, (match data with Some rows => rows !! i | None => None end) = Some row
       /\ (forall k, k ∈ EXCLUDED_COLUMNS -> r !! k = None)
       /\ (forall k, k ∉ EXCLUDED_COLUMNS -> r !! k = row !! k))
  /\ (forall (V : Type) (rows1 rows2 : list (gmap string V)),
        Forall2 (fun r1 r2 => forall k, k ∉ EXCLUDED_COLUMNS -> r1 !! k = r2 !! k) rows1 rows2 ->
        anonymize_data (Some rows1) = anonymize_data (Some rows2)).
Proof.
  split.
  - intros V data i r H.
    assert (Hd : exists rows, data = Some rows /\ anonymize_data data = map anonymize_row rows).
    { destruct data as [[|x rows]|]; simpl in H.
      - by rewrite lookup_nil in H.
      - eexists. split; reflexivity.
      - by rewrite lookup_nil in H. }
    destruct Hd as (rows & -> & Hmap). rewrite Hmap, list_lookup_fmap in H.
    destruct (rows !! i) as [row|] eqn:E; simpl in H; [|discriminate].
    injection H as <-. exists row. split; [done|]. split.
    + intros k Hk. rewrite anonymize_row_lookup. by case_decide.
    + intros k Hk. rewrite anonymize_row_lookup. by case_decide.
  - intros V rows1 rows2 H.
    assert (Hm : map anonymize_row rows1 = map anonymize_row rows2).
    { induction H as [|r1 r2 rows1 rows2 Hr _ IH]; simpl; [done|].
      by rewrite (anonymize_row_agree r1 r2 Hr), IH. }
    destruct rows1, rows2; simpl in *; done.
Qed.

Lemma anonymize_noninterference_witness :
  anonymize_data (Some [<["email"%string := 1]> (<["age"%string := 30]> (∅ : gmap string nat))])
  = anonymize_data (Some [<["email"%string := 2]> (<["age"%string := 30]> (∅ : gmap string nat))]).
Proof.
  apply (proj2 anonymize_noninterference nat).
  constructor; [|constructor].
  intros k Hk. destruct (decide (k = "email"%string)) as [->|Hne].
  - exfalso. apply Hk. simpl. set_solver.
  - rewrite !(lookup_insert_ne _ "email"%string) by congruence. reflexivity.
Defined.

(* ------------------------------------------------------------------ *)
(** ** C9: import writes *)

Lemma write_units_effects (io : str -> io_outcome) (units : list (str * list str)) :
  forall fs : fs_state,
  ((write_units io fs units).2 = true /\ (write_units io fs units).1 = apply_writes fs units)
  \/ ((write_units io fs units).2 = false /\
      exists done u rest, units = done ++ u :: rest /\
        ((io (unit_path u.1) = IOpenFail /\ (write_units io fs units).1 = apply_writes fs done)
         \/ (exists k, io (unit_path u.1) = IWriteFail k /\
               (write_units io fs units).1
               = fs_update (apply_writes fs done) (unit_path u.1)
                   (take k (import_unit u.1 u.2))))).
Proof.
  induction units as [|[f ls] units IH]; intros fs; simpl.
  - left. split; reflexivity.
  - unfold write_file. destruct (io (unit_path f)) as [| |k] eqn:E.
    + destruct (IH (fs_update fs (unit_path f) (import_unit f ls)))
        as [[H1 H2]|[H1 (done & u & rest & Hu & H2)]].
      * left. split; assumption.
      * right. split; [assumption|].
        exists ((f, ls) :: done), u, rest. split; [by rewrite Hu|]. exact H2.
    + right. split; [reflexivity|]. exists [], (f, ls), units.
      split; [reflexivity|]. left. split; [exact E|reflexivity].
    + right. split; [reflexivity|]. exists [], (f, ls), units.
      split; [reflexivity|]. right. exists k. split; [exact E|reflexivity].
Qed.

(** Claim C9 (counterexample): the document holds the units [a.md] with
    text [hello] and [b.md] with text [world].  Writing [a.md] succeeds and
    the write of [b.md] raises after two characters.  [main] stops with an
    exception.  [docs/a.md] has already been rewritten, and [docs/b.md],
    which held [old], now holds [wo].  That is neither its old content nor
    the [world] a successful import writes there. *)
Lemma import_atomicity_counterexample :
  let content := lit "**=== FILE: a.md ===**" ++ nl :: lit "hello" ++ nl
                 :: lit "**=== FILE: b.md ===**" ++ nl :: lit "world" in
  let io := fun p => if str_eqb p (unit_path (lit "b.md")) then IWriteFail 2 else IOk in
  let fs0 : fs_state := fun p => if str_eqb p (unit_path (lit "b.md")) then Some (lit "old")
                                 else None in
  (import_main (Some content) io fs0).2 = false
  /\ fs0 (unit_path (lit "a.md")) = None
  /\ (import_main (Some content) io fs0).1 (unit_path (lit "a.md")) = Some (lit "hello")
  /\ (import_main (Some content) io fs0).1 (unit_path (lit "b.md")) = Some (lit "wo")
  /\ (import_main (Some content) (fun _ => IOk) fs0).1 (unit_path (lit "b.md"))
     = Some (lit "world").
Proof. vm_compute. repeat split. Qed.

(** Claim C9 (amended): import is not atomic.  [main] writes each unit
    right after it reconstructs it, overwriting [docs/<name>] in place.
    - If the DOCX conversion raises, nothing is written.
    - If writing [debug_import_full.md] raises, only that file may change.
    - Otherwise [process_content] always yields the units and the decoding
      cannot raise.
    - If every write succeeds, each unit file holds its new content.
    - If the open or the write of some unit raises, the units before it
      hold their new content and the units after it are untouched.  That
      unit is either untouched (the open raised) or truncated to a prefix
      of its new content (the write raised). *)
Theorem import_main_writes (converted : option str) (io : str -> io_outcome) (fs : fs_state) :
  match converted with
  | None => (import_main converted io fs).1 = fs /\ (import_main converted io fs).2 = false
  | Some content =>
      let debug := lit "debug_import_full.md" in
      ((io debug = IOpenFail /\ (import_main converted io fs).1 = fs)
       \/ (exists k, io debug = IWriteFail k /\
             (import_main converted io fs).1 = fs_update fs debug (take k content)))
       /\ (import_main converted io fs).2 = false
      \/ (io debug = IOk /\
          exists units, process_content content = Some units /\
          let fs1 := fs_update fs debug content in
          ((import_main converted io fs).2 = true
           /\ (import_main converted io fs).1 = apply_writes fs1 units)
          \/ ((import_main converted io fs).2 = false /\
              exists done u rest, units = done ++ u :: rest /\
                ((io (unit_path u.1) = IOpenFail
                  /\ (import_main converted io fs).1 = apply_writes fs1 done)
                 \/ (exists k, io (unit_path u.1) = IWriteFail k /\
                       (import_main converted io fs).1
                       = fs_update (apply_writes fs1 done) (unit_path u.1)
                           (take k (import_unit u.1 u.2))))))
  end.
Proof.
  destruct converted as [content|]; [|split; reflexivity].
  unfold import_main, write_file.
  destruct (io (lit "debug_import_full.md")) as [| |k] eqn:E.
  - right. split; [reflexivity|].
    destruct (process_content content) as [units|] eqn:Hp.
    + exists units. split; [reflexivity|]. apply write_units_effects.
    + exfalso. exact (process_content_total content Hp).
  - left. split; [|reflexivity]. left. split; reflexivity.
  - left. split; [|reflexivity]. right. exists k. split; reflexivity.
Qed.

(* ================================================================== *)
(** * Further properties of the scripts *)

(** ** escape_html *)

Lemma str_replace_aux_char_free (c : ascii) (new : str) (fuel : nat) (s : str) :
  (length s <= fuel)%nat -> forallb (not_char c) new = true ->
  forallb (not_char c) (str_replace_aux fuel [c] new s) = true.
Proof.
  revert s; induction fuel as [|fuel IH]; intros s Hl Hn.
  - destruct s; simpl in *; [done|lia].
  - destruct s as [|d s]; simpl; [done|].
    simpl in Hl. rewrite andb_true_r.
    destruct (Ascii.eqb c d) eqn:E.
    + rewrite forallb_app, Hn. simpl. rewrite drop_0. apply IH; [lia|done].
    + simpl. unfold not_char at 1. rewrite Ascii.eqb_sym, E. simpl. apply IH; [lia|done].
Qed.

Lemma str_replace_aux_keep_free (d : ascii) (old new : str) (fuel : nat) (s : str) :
  forallb (not_char d) s = true -> forallb (not_char d) new = true ->
  forallb (not_char d) (str_replace_aux fuel old new s) = true.
Proof.
  revert s; induction fuel as [|fuel IH]; intros s Hs Hn; simpl; [done|].
  destruct s as [|x s]; [done|].
  simpl in Hs. apply andb_true_iff in Hs as [Hx Hs].
  destruct (startswith (x :: s) old).
  - rewrite forallb_app, Hn. simpl. apply IH; [|done].
    apply (forallb_drop _ (x :: s)). simpl. by rewrite Hx, Hs.
  - simpl. rewrite Hx. simpl. by apply IH.
Qed.

Lemma str_replace_aux_char_id (c : ascii) (new : str) (fuel : nat) (s : str) :
  forallb (not_char c) s = true -> str_replace_aux fuel [c] new s = s.
Proof.
  revert s; induction fuel as [|fuel IH]; intros s Hs; simpl; [done|].
  destruct s as [|d s]; [done|].
  simpl in Hs. apply andb_true_iff in Hs as [Hd Hs].
  unfold not_char in Hd. rewrite Ascii.eqb_sym in Hd.
  simpl. destruct (Ascii.eqb c d); [discriminate|]. simpl. by rewrite IH.
Qed.

Lemma checkboxes_no_input (key prefix t : str) :
  forallb (not_char "<") t = true -> forall j, input_to_token key prefix (drop j t) = None.
Proof.
  intros Ht j. pose proof (forallb_drop _ t j Ht) as Hj.
  unfold input_to_token, input_re.
  destruct (drop j t) as [|x u]; [reflexivity|].
  simpl in Hj. apply andb_true_iff in Hj as [Hx _].
  assert (Hx' : Ascii.eqb "<" x = false).
  { unfold not_char in Hx. rewrite Ascii.eqb_sym. by destruct (Ascii.eqb x "<"). }
  replace (expects (lit "<input") (x :: u)) with (@None str); [reflexivity|].
  unfold lit. cbn [list_ascii_of_string expects expect]. by rewrite Hx'.
Qed.

Lemma process_checkboxes_no_lt (t : str) :
  forallb (not_char "<") t = true -> process_checkboxes t = t.
Proof.
  intros Ht. unfold process_checkboxes.
  rewrite (re_sub_none _ t (checkboxes_no_input _ _ t Ht)).
  exact (re_sub_none _ t (checkboxes_no_input _ _ t Ht)).
Qed.

Lemma escape_html_free (s : str) :
  forallb (not_char "<") (escape_html s) = true /\ forallb (not_char ">") (escape_html s) = true.
Proof.
  unfold escape_html, str_replace. split.
  - apply str_replace_aux_keep_free; [|reflexivity].
    apply str_replace_aux_char_free; [lia|reflexivity].
  - apply str_replace_aux_char_free; [lia|reflexivity].
Qed.

(** X1: the text [escape_html] returns contains no [<] and no [>]
    character. *)
Theorem escape_html_no_angle_brackets (s : str) :
  forallb (fun c => not_char "<" c && not_char ">" c) (escape_html s) = true.
Proof.
  destruct (escape_html_free s) as [H1 H2].
  induction (escape_html s) as [|c t IH]; simpl in *; [done|].
  apply andb_true_iff in H1 as [-> H1]. apply andb_true_iff in H2 as [-> H2]. auto.
Qed.

(** X2: [escape_html] returns a text without [<] and [>] unchanged. *)
Theorem escape_html_identity (s : str) :
  forallb (not_char "<") s = true -> forallb (not_char ">") s = true -> escape_html s = s.
Proof.
  intros H1 H2. unfold escape_html, str_replace.
  rewrite (str_replace_aux_char_id "<" _ _ s H1).
  exact (str_replace_aux_char_id ">" _ _ s H2).
Qed.

Lemma escape_html_identity_witness :
  escape_html (lit "a & b") = lit "a & b".
Proof. apply escape_html_identity; reflexivity. Defined.

(** X3: in [export_docx.main] the second [process_checkboxes], applied to
    the output of [escape_html], never changes the text: no [<input]
    element is left to replace. *)
Theorem export_second_checkbox_pass_noop (s : str) :
  process_checkboxes (escape_html s) = escape_html s.
Proof. apply process_checkboxes_no_lt. apply escape_html_free. Qed.

(** ** clean_buffer *)

Lemma find_next_non_blank_some (lines : list str) (fuel k j : nat) (l : str) :
  find_next_non_blank lines k fuel = Some (j, l) ->
  (k <= j)%nat /\ lines !! j = Some l /\ is_blank l = false
  /\ List.filter (fun x => negb (is_blank x)) (drop k lines)
     = l :: List.filter (fun x => negb (is_blank x)) (drop (S j) lines).
Proof.
  revert k; induction fuel as [|fuel IH]; intros k H; simpl in H; [discriminate|].
  destruct (lines !! k) as [l0|] eqn:Hk; [|discriminate].
  rewrite (drop_S _ _ _ Hk). simpl.
  destruct (is_blank l0) eqn:Hb.
  - destruct (IH (S k) H) as (Hle & Hj & Hl & Hf). simpl.
    split; [lia|]. by repeat split.
  - injection H as <- <-. simpl. by repeat split.
Qed.

Lemma clean_loop_nonblank (lines : list str) (fuel i : nat) :
  (length lines <= i + fuel)%nat ->
  List.filter (fun x => negb (is_blank x)) (clean_loop lines i fuel)
  = List.filter (fun x => negb (is_blank x)) (drop i lines).
Proof.
  revert i; induction fuel as [|fuel IH]; intros i Hlen; cbn [clean_loop].
  - by rewrite drop_ge by lia.
  - destruct (lines !! i) as [line|] eqn:Hi.
    2:{ apply lookup_ge_None in Hi. by rewrite drop_ge. }
    rewrite (drop_S _ _ _ Hi).
    assert (Hdef : List.filter (fun x => negb (is_blank x)) (line :: clean_loop lines (S i) fuel)
                   = List.filter (fun x => negb (is_blank x)) (line :: drop (S i) lines)).
    { simpl. rewrite IH by lia. reflexivity. }
    destruct (find_next_non_blank lines (S i) (length lines)) as [[j l]|] eqn:Hn; [|exact Hdef].
    destruct (find_next_non_blank_some _ _ _ _ _ Hn) as (Hle & Hj & Hl & Hf).
    pose proof (lookup_lt_Some _ _ _ Hj) as Hjlt.
    assert (Hsj : List.filter (fun x => negb (is_blank x)) (clean_loop lines (S j) fuel)
                  = List.filter (fun x => negb (is_blank x)) (drop (S j) lines))
      by (apply IH; lia).
    assert (Hjj : List.filter (fun x => negb (is_blank x)) (clean_loop lines j fuel)
                  = l :: List.filter (fun x => negb (is_blank x)) (drop (S j) lines)).
    { rewrite IH by lia. rewrite (drop_S _ _ _ Hj). simpl. by rewrite Hl. }
    assert (Hsi : List.filter (fun x => negb (is_blank x)) (clean_loop lines (S i) fuel)
                  = List.filter (fun x => negb (is_blank x)) (drop (S i) lines))
      by (apply IH; lia).
    destruct (Nat.eqb j 0); [exact Hdef|].
    cbn [List.filter].
    rewrite Hf.
    destruct (contains line (lit "/// details") && contains l (lit "type:")).
    { cbn [List.filter]. rewrite Hjj. reflexivity. }
    destruct (contains line (lit "type:") && contains l (lit "open:")).
    { cbn [List.filter]. rewrite Hl, Hsj. reflexivity. }
    destruct ((contains line (lit "type:") || contains line (lit "open:"))
              && negb (str_eqb (strip l) []) && negb (startswith (strip l) (lit "open:"))
              && negb (startswith (strip l) (lit "///"))).
    { cbn [List.filter]. rewrite Hl, Hsj. reflexivity. }
    destruct (contains line (lit "/// html") && contains line (lit "li")).
    { cbn [List.filter app].
      assert (Hmid : List.filter (fun x => negb (is_blank x))
                       ((match lines !! S i with
                         | Some l0 => if negb (str_eqb (strip l0) []) then [[]] else []
                         | None => []
                         end) ++ clean_loop lines (S i) fuel)
                     = List.filter (fun x => negb (is_blank x)) (drop (S i) lines)).
      { rewrite List.filter_app, Hsi, Hf.
        destruct (lines !! S i) as [l0|]; [destruct (negb (str_eqb (strip l0) []))|]; reflexivity. }
      rewrite Hmid, Hf. reflexivity. }
    destruct ((contains line (lit "<input") || contains line (lit "[cb-")
               || contains line (lit "[pledge_"))
              && negb (str_eqb (strip l) []) && (S i <? j)%nat).
    { cbn [List.filter]. rewrite Hl, Hsj. reflexivity. }
    cbn [List.filter] in Hdef. rewrite Hf in Hdef. exact Hdef.
Qed.

Lemma drop_leading_blank_nonblank (lines : list str) :
  List.filter (fun x => negb (is_blank x)) (drop_leading_blank lines)
  = List.filter (fun x => negb (is_blank x)) lines.
Proof.
  induction lines as [|l ls IH]; simpl; [done|].
  destruct (str_eqb (strip l) []) eqn:E.
  - assert (Hb : is_blank l = true) by exact E. rewrite Hb. exact IH.
  - assert (Hb : is_blank l = false) by exact E. simpl. rewrite Hb. reflexivity.
Qed.

(** X4: [clean_buffer] only removes or inserts blank lines: the lines that
    are not blank come out unchanged, in their order, none dropped and none
    added. *)
Theorem clean_buffer_keeps_text (lines : list str) :
  List.filter (fun x => negb (is_blank x)) (clean_buffer lines)
  = List.filter (fun x => negb (is_blank x)) lines.
Proof.
  unfold clean_buffer.
  rewrite clean_loop_nonblank by lia.
  apply drop_leading_blank_nonblank.
Qed.

Lemma clean_loop_head (lines : list str) (i fuel : nat) (line : str) :
  lines !! i = Some line -> exists rest, clean_loop lines i (S fuel) = line :: rest.
Proof.
  intros Hi. cbn [clean_loop]. rewrite Hi.
  destruct (find_next_non_blank lines (S i) (length lines)) as [[j l]|]; [|eauto].
  repeat match goal with |- context [if ?b then _ else _] => destruct b end; eauto.
Qed.

(** X5: the first line [clean_buffer] returns, if any, is not blank. *)
Theorem clean_buffer_no_leading_blank (lines : list str) :
  match clean_buffer lines with
  | l :: _ => is_blank l = false
  | [] => True
  end.
Proof.
  unfold clean_buffer.
  assert (H : match drop_leading_blank lines with
              | l :: _ => is_blank l = false | [] => True end).
  { induction lines as [|l ls IH]; simpl; [done|].
    destruct (str_eqb (strip l) []) eqn:E; [exact IH|]. exact E. }
  destruct (drop_leading_blank lines) as [|l ls] eqn:E; [done|].
  destruct (clean_loop_head (l :: ls) 0 (length ls) l eq_refl) as [rest Hr].
  cbn [length]. rewrite Hr. exact H.
Qed.

(** ** import_unit: collapsing newlines *)

Lemma newlines_re_eq (s : str) :
  newlines_re s = if (3 <=? length (takeWhile (is_char nl) s))%nat
                  then Some ([nl; nl], dropWhile (is_char nl) s) else None.
Proof.
  unfold newlines_re, span1.
  destruct (takeWhile (is_char nl) s) eqn:E; reflexivity.
Qed.

Lemma takeWhile_dropWhile_nil (p : ascii -> bool) (s : str) :
  takeWhile p (dropWhile p s) = [].
Proof.
  induction s as [|c s IH]; simpl; [done|].
  destruct (p c) eqn:E; simpl; [exact IH|]. by rewrite E.
Qed.

Lemma length_dropWhile_le (p : ascii -> bool) (s : str) :
  (length (dropWhile p s) <= length s)%nat.
Proof. induction s as [|c s IH]; simpl; [done|]. destruct (p c); simpl; lia. Qed.

Lemma lead_cons (c : ascii) (s : str) :
  length (takeWhile (is_char nl) (c :: s))
  = if Ascii.eqb c nl then S (length (takeWhile (is_char nl) s)) else 0%nat.
Proof. unfold is_char. cbn [takeWhile]. by destruct (Ascii.eqb c nl). Qed.

Lemma startswith_lead (x : str) (k : nat) :
  startswith x (repeat nl k) = true -> (k <= length (takeWhile (is_char nl) x))%nat.
Proof.
  revert x; induction k as [|k IH]; intros x H; [lia|].
  destruct x as [|c x]; cbn [repeat startswith] in H; [discriminate|].
  apply andb_true_iff in H as [Hc H].
  rewrite lead_cons, Ascii.eqb_sym, Hc. specialize (IH x H). lia.
Qed.

Lemma dropWhile_nl_cons (c : ascii) (s : str) :
  Ascii.eqb c nl = true -> dropWhile (is_char nl) (c :: s) = dropWhile (is_char nl) s.
Proof. intros Hc. unfold is_char. cbn [dropWhile]. by rewrite Hc. Qed.

Lemma startswith_nl3 (c : ascii) (O : str) :
  startswith (c :: O) [nl; nl; nl] = Ascii.eqb c nl && startswith O [nl; nl].
Proof. cbn [startswith]. by rewrite Ascii.eqb_sym. Qed.

Lemma contains_cons (c : ascii) (s p : str) :
  contains (c :: s) p = startswith (c :: s) p || contains s p.
Proof. reflexivity. Qed.

Lemma startswith_nl1 (c : ascii) (O : str) :
  startswith (c :: O) [nl] = Ascii.eqb c nl.
Proof. cbn [startswith]. by rewrite Ascii.eqb_sym, andb_true_r. Qed.

Lemma startswith_nl2 (c : ascii) (O : str) :
  startswith (c :: O) [nl; nl] = Ascii.eqb c nl && startswith O [nl].
Proof. cbn [startswith]. by rewrite Ascii.eqb_sym. Qed.

Lemma re_sub_newlines (fuel : nat) (s : str) :
  (length s <= fuel)%nat ->
  contains (re_sub_aux fuel newlines_re s) [nl; nl; nl] = false
  /\ length (takeWhile (is_char nl) (re_sub_aux fuel newlines_re s))
     = (let r := length (takeWhile (is_char nl) s) in if (3 <=? r)%nat then 2 else r)%nat.
Proof.
  revert s; induction fuel as [|fuel IH]; intros s Hl.
  - destruct s as [|c s]; [split; reflexivity|]. cbn [length] in Hl. lia.
  - destruct s as [|c s]; [split; reflexivity|].
    cbn [re_sub_aux]. rewrite newlines_re_eq.
    cbn [length] in Hl. cbv zeta.
    rewrite lead_cons. destruct (Ascii.eqb c nl) eqn:Hc.
    + destruct (3 <=? S (length (takeWhile (is_char nl) s)))%nat eqn:E3.
      * rewrite (dropWhile_nl_cons c s Hc).
        assert (Hlr : (length (dropWhile (is_char nl) s) <= fuel)%nat)
          by (pose proof (length_dropWhile_le (is_char nl) s); lia).
        destruct (IH _ Hlr) as [Hno Hlead].
        rewrite takeWhile_dropWhile_nil in Hlead. cbn [length] in Hlead. cbv zeta in Hlead.
        set (O := re_sub_aux fuel newlines_re (dropWhile (is_char nl) s)) in *.
        split.
        -- destruct O as [|d O'] eqn:EO; [reflexivity|].
           rewrite lead_cons in Hlead.
           destruct (Ascii.eqb d nl) eqn:Ed; [simpl in Hlead; lia|].
           cbn [app]. rewrite (contains_cons nl), (contains_cons nl), !startswith_nl3, !startswith_nl2.
           rewrite startswith_nl1, Hno, Ed, !Ascii.eqb_refl. reflexivity.
        -- cbn [app]. rewrite !lead_cons, Ascii.eqb_refl, Hlead. reflexivity.
      * assert (Hs : (length s <= fuel)%nat) by lia.
        destruct (IH _ Hs) as [Hno Hlead]. cbv zeta in Hlead.
        set (O := re_sub_aux fuel newlines_re s) in *.
        apply Nat.leb_gt in E3.
        destruct (3 <=? length (takeWhile (is_char nl) s))%nat eqn:E;
          [apply Nat.leb_le in E; lia|].
        split.
        -- rewrite contains_cons, Hno, orb_false_r, startswith_nl3, Hc. cbn [andb].
           destruct (startswith O [nl; nl]) eqn:Hst; [|reflexivity].
           apply (startswith_lead O 2) in Hst. lia.
        -- rewrite lead_cons, Hc, Hlead. reflexivity.
    + assert (Hs : (length s <= fuel)%nat) by lia.
      destruct (IH _ Hs) as [Hno Hlead].
      cbn [Nat.leb].
      split.
      * rewrite contains_cons, Hno, orb_false_r, startswith_nl3, Hc. reflexivity.
      * rewrite lead_cons, Hc. reflexivity.
Qed.

(** X6: the text [import_docx.main] writes for a unit never contains three
    newlines in a row: runs of blank lines are cut to one. *)
Theorem import_unit_no_triple_newline (filename : str) (lines : list str) :
  contains (import_unit filename lines) [nl; nl; nl] = false.
Proof. unfold import_unit, re_sub. apply re_sub_newlines. lia. Qed.

(** ** convert_to_long_format and the sheet *)

Lemma convert_to_long_format_eq {V : Type} (data : list (gmap string V)) :
  convert_to_long_format data
  = flat_map (fun row => map (fun '(pledge_name, pledge_value) =>
                                long_row row pledge_name pledge_value)
                             (map_to_list (pledge_columns row))) data.
Proof. by destruct data. Qed.

(** X7: [convert_to_long_format] returns one row per pledge column of each
    record, so as many rows as the records have pledge columns in all. *)
Theorem long_format_length {V : Type} (data : list (gmap string V)) :
  length (convert_to_long_format data)
  = sum_list_with (fun row => size (pledge_columns row)) data.
Proof.
  rewrite convert_to_long_format_eq.
  induction data as [|row data IH]; simpl; [done|].
  rewrite length_app, length_map, length_map_to_list, IH. reflexivity.
Qed.

(** X8: a long row comes from a pledge column [name] with value [v] of one
    of the records, and is that record's identifier columns ([None] where
    the record lacks one), then [name], then [v]; every pledge column of
    every record gives such a row. *)
Theorem long_format_rows {V : Type} (data : list (gmap string V))
    (r : list (string * long_val V)) :
  In r (convert_to_long_format data)
  <-> exists row name v, In row data /\ row !! name = Some v
      /\ String.prefix "pledge_" name = true /\ r = long_row row name v.
Proof.
  rewrite convert_to_long_format_eq, in_flat_map. split.
  - intros (row & Hrow & Hr). apply in_map_iff in Hr as ([name v] & <- & Hin).
    apply list_elem_of_In, elem_of_map_to_list in Hin.
    unfold pledge_columns in Hin. apply map_lookup_filter_Some in Hin as [Hv Hp].
    exists row, name, v. simpl in Hp. auto.
  - intros (row & name & v & Hrow & Hv & Hp & ->). exists row. split; [done|].
    apply in_map_iff. exists (name, v). split; [reflexivity|].
    apply list_elem_of_In, elem_of_map_to_list.
    unfold pledge_columns. apply map_lookup_filter_Some. split; [done|]. exact Hp.
Qed.

Lemma long_format_rows_witness :
  In (long_row (<["pledge_1"%string := 7]> (∅ : gmap string nat)) "pledge_1"%string 7)
     (convert_to_long_format [<["pledge_1"%string := 7]> (∅ : gmap string nat)]).
Proof.
  apply (proj2 (long_format_rows [<["pledge_1"%string := 7]> (∅ : gmap string nat)]
                  (long_row (<["pledge_1"%string := 7]> (∅ : gmap string nat)) "pledge_1"%string 7))).
  exists (<["pledge_1"%string := 7]> (∅ : gmap string nat)), "pledge_1"%string, 7.
  split; [left; reflexivity|]. split; [reflexivity|]. split; reflexivity.
Defined.

Lemma pledge_columns_anonymize {V : Type} (row : gmap string V) :
  pledge_columns (anonymize_row row) = pledge_columns row.
Proof.
  apply map_eq. intros k. unfold pledge_columns.
  rewrite !map_lookup_filter, anonymize_row_lookup.
  case_decide as Hk; [|reflexivity].
  destruct (row !! k) as [v|]; simpl; [|reflexivity].
  repeat case_guard; simpl in *; try reflexivity.
  exfalso. apply list_elem_of_In in Hk. unfold EXCLUDED_COLUMNS in Hk.
  repeat destruct Hk as [<-|Hk]; try discriminate. done.
Qed.

Lemma long_row_anonymize {V : Type} (row : gmap string V) (name : string) (v : V) :
  long_row (anonymize_row row) name v = long_row row name v.
Proof.
  unfold long_row. f_equal. apply map_ext_in. intros c Hc.
  rewrite anonymize_row_lookup. case_decide as Hx; [|reflexivity].
  exfalso. apply list_elem_of_In in Hx. unfold IDENTIFIER_COLUMNS in Hc.
  unfold EXCLUDED_COLUMNS in Hx.
  repeat destruct Hc as [<-|Hc]; try done;
    repeat destruct Hx as [Hx|Hx]; try discriminate; done.
Qed.

Lemma convert_anonymize {V : Type} (data : option (list (gmap string V))) :
  convert_to_long_format (anonymize_data data)
  = match data with Some rows => convert_to_long_format rows | None => [] end.
Proof.
  destruct data as [[|row rows]|]; [reflexivity| |reflexivity].
  unfold anonymize_data. rewrite !convert_to_long_format_eq.
  induction (row :: rows) as [|x xs IH]; simpl; [reflexivity|].
  rewrite IH, pledge_columns_anonymize. f_equal. apply map_ext.
  intros [name v]. apply long_row_anonymize.
Qed.

(** X9: the long-format rows built from the anonymized records are the ones
    built from the records themselves: [convert_to_long_format] reads only
    the identifier and pledge columns, none of them excluded, so what
    reaches the sheet never depends on an excluded column. *)
Theorem anonymize_then_convert {V : Type} (rows : list (gmap string V)) :
  convert_to_long_format (anonymize_data (Some rows)) = convert_to_long_format rows.
Proof. exact (convert_anonymize (Some rows)). Qed.

Lemma long_row_cells {V : Type} (row : gmap string V) (name : string) (v : V) :
  map (fun col => dict_get col (long_row row name v))
      (IDENTIFIER_COLUMNS ++ ["pledge"; "value"]%string)
  = map (fun kv => Some kv.2) (long_row row name v).
Proof. reflexivity. Qed.

Lemma long_row_keys {V : Type} (row : gmap string V) (name : string) (v : V) :
  map fst (long_row row name v) = IDENTIFIER_COLUMNS ++ ["pledge"; "value"]%string.
Proof. reflexivity. Qed.

(** X10: when there are pledge entries, [export_to_sheets.main] writes the
    header row [id, gender, career_stage, country_of_origin, age,
    country_of_residence, pledge, value], all eight columns of a long row,
    and under it each long row's values in that order, none missing;
    with no pledge entry, or when the fetch failed, it writes nothing. *)
Theorem sheet_table {V : Type} (fetched : option (list (gmap string V))) :
  sheets_main fetched
  = match fetched with
    | None => None
    | Some rows =>
        match convert_to_long_format rows with
        | [] => None
        | long => Some (IDENTIFIER_COLUMNS ++ ["pledge"; "value"]%string,
                        map (map (fun kv => Some kv.2)) long)
        end
    end.
Proof.
  destruct fetched as [rows|]; [|reflexivity].
  unfold sheets_main. rewrite (convert_anonymize (Some rows)).
  assert (Hall : Forall (fun r => exists row name v, r = long_row row name v)
                   (convert_to_long_format rows)).
  { apply Forall_forall. intros r Hr. apply list_elem_of_In, long_format_rows in Hr.
    destruct Hr as (row & name & v & _ & _ & _ & ->). eauto. }
  destruct (convert_to_long_format rows) as [|r0 rs] eqn:E; [reflexivity|].
  pose proof Hall as Hall0. rewrite Forall_forall in Hall0.
  destruct (Hall0 r0 ltac:(set_solver)) as (row & name & v & Hr0).
  unfold sheet_values. subst r0. rewrite long_row_keys.
  replace (take 8 (IDENTIFIER_COLUMNS ++ ["pledge"; "value"]%string))
    with (IDENTIFIER_COLUMNS ++ ["pledge"; "value"]%string) by reflexivity.
  f_equal. f_equal.
  apply map_ext_in. intros r Hr. apply list_elem_of_In in Hr.
  rewrite Forall_forall in Hall. destruct (Hall r Hr) as (row' & name' & v' & ->).
  apply long_row_cells.
Qed.

(** ** process_content: the units and the preamble *)

Lemma str_split_nonempty (sep : ascii) (s : str) : str_split sep s <> [].
Proof.
  induction s as [|c s IH]; simpl; [done|].
  destruct (Ascii.eqb c sep); [done|]. by destruct (str_split sep s).
Qed.

Lemma str_split_app_sep (sep : ascii) (x y : str) :
  str_split sep (x ++ sep :: y) = str_split sep x ++ str_split sep y.
Proof.
  induction x as [|c x IH]; simpl.
  - by rewrite Ascii.eqb_refl.
  - rewrite IH. destruct (Ascii.eqb c sep); [reflexivity|].
    pose proof (str_split_nonempty sep x) as Hne.
    destruct (str_split sep x) as [|w ws]; [done|]. reflexivity.
Qed.

Lemma presplit_app (x y : str) : presplit (x ++ nl :: y) = presplit x ++ presplit y.
Proof. unfold presplit. by rewrite str_split_app_sep, flat_map_app. Qed.

Lemma file_markers_app (x y : str) :
  file_markers (x ++ nl :: y) = file_markers x ++ file_markers y.
Proof.
  unfold file_markers. by rewrite presplit_app, omap_app.
Qed.

Lemma pc_run_app (st : pc_state) (l1 l2 : list str) :
  pc_run st (l1 ++ l2) = (st' ← pc_run st l1; pc_run st' l2).
Proof.
  revert st; induction l1 as [|l l1 IH]; intros st; simpl; [done|].
  destruct (pc_step st l) as [st1|]; simpl; [apply IH|done].
Qed.

Lemma keys_assoc_set (k : str) (v : list str) (d : list (str * list str)) :
  map fst (assoc_set k v d) = dedup_step (map fst d) k.
Proof.
  unfold dedup_step.
  induction d as [|[k' v'] d IH]; simpl; [done|].
  destruct (str_eqb k k') eqn:E; simpl.
  - apply str_eqb_eq in E as ->. reflexivity.
  - rewrite IH. by destruct (existsb (str_eqb k) (map fst d)).
Qed.

Lemma file_marker_nonempty (s f : str) : re_find file_marker_re s = Some f -> truthy f = true.
Proof.
  induction s as [|c s IH]; intros H; simpl in H.
  - unfold file_marker_re in H. simpl in H. discriminate.
  - destruct (file_marker_re (c :: s)) as [g|] eqn:E.
    + injection H as <-. unfold file_marker_re in E.
      destruct (expects (lit "**=== FILE: ") (c :: s)) as [s1|]; [|discriminate].
      cbn [mbind option_bind] in E. unfold span1 in E.
      destruct (takeWhile anchor_char s1); [discriminate|].
      cbn [mbind option_bind] in E.
      destruct (expects (lit " ===**") (dropWhile anchor_char s1)); [|discriminate].
      injection E as <-. reflexivity.
    + exact (IH H).
Qed.

Lemma pc_run_keys (lines : list str) (st st' : pc_state) :
  pc_run st lines = Some st' ->
  map fst (save_file st')
  = fold_left dedup_step (omap (re_find file_marker_re) lines) (map fst (save_file st)).
Proof.
  revert st; induction lines as [|l ls IH]; intros st H; simpl in H.
  - injection H as <-. reflexivity.
  - unfold pc_step in H.
    destruct (re_find file_marker_re l) as [f|] eqn:Ef.
    + cbn [mbind option_bind] in H. rewrite (IH _ H). simpl. rewrite Ef. simpl.
      f_equal. unfold save_file at 1. cbn [current_file files_content].
      rewrite (file_marker_nonempty _ _ Ef). apply keys_assoc_set.
    + simpl. rewrite Ef.
      destruct (current_file st) as [f|] eqn:Ec.
      * destruct (handle_line (current_buffer st) (indent_stack st) (unescape l))
          as [[buf stk]|]; cbn [mbind option_bind] in H; [|discriminate].
        rewrite (IH _ H). f_equal. unfold save_file. cbn [current_file files_content].
        rewrite Ec. destruct (truthy f); [|reflexivity].
        rewrite !keys_assoc_set. reflexivity.
      * cbn [mbind option_bind] in H. exact (IH _ H).
Qed.

Lemma process_content_keys (content : str) :
  option_map (map fst) (process_content content) = Some (dedup_first (file_markers content)).
Proof.
  pose proof (process_content_total content) as Ht.
  unfold process_content in *.
  destruct (pc_run pc_init (presplit content)) as [st|] eqn:E; [|done].
  simpl. rewrite (pc_run_keys _ _ _ E). reflexivity.
Qed.

(** X11: [process_content] returns one entry for each file name that a file
    marker names, in the order the names first appear; a name met again
    adds no second entry. *)
Theorem process_content_units (content : str) :
  option_map (map fst) (process_content content) = Some (dedup_first (file_markers content)).
Proof. exact (process_content_keys content). Qed.

Lemma pc_run_no_marker (lines : list str) :
  omap (re_find file_marker_re) lines = [] -> pc_run pc_init lines = Some pc_init.
Proof.
  induction lines as [|l ls IH]; simpl; intros H; [done|].
  unfold pc_step. destruct (re_find file_marker_re l); [discriminate|].
  simpl. exact (IH H).
Qed.

(** X12: text before the first file marker (no line of it holds a marker)
    has no effect on what [process_content] returns. *)
Theorem process_content_preamble (pre content : str) :
  file_markers pre = [] -> process_content (pre ++ nl :: content) = process_content content.
Proof.
  intros H. unfold process_content. rewrite presplit_app, pc_run_app.
  unfold file_markers in H. by rewrite (pc_run_no_marker _ H).
Qed.

Lemma process_content_preamble_witness :
  process_content (lit "Manifesto" ++ nl :: lit "**=== FILE: a.md ===**" ++ nl :: lit "x")
  = process_content (lit "**=== FILE: a.md ===**" ++ nl :: lit "x").
Proof. apply process_content_preamble. vm_compute. reflexivity. Defined.

(** ** The unit headers of the export, read back by the import *)

Lemma lower_char_nl (c : ascii) : Ascii.eqb (lower_char c) nl = Ascii.eqb c nl.
Proof. destruct c as [[] [] [] [] [] [] [] []]; reflexivity. Qed.

Lemma anchor_char_nl (c : ascii) : anchor_char c = true -> not_char nl c = true.
Proof. destruct c as [[] [] [] [] [] [] [] []]; intros H; first [reflexivity | discriminate H]. Qed.

Lemma file_anchor_nl_free (f : str) :
  forallb (not_char nl) f = true -> forallb (not_char nl) (file_anchor f) = true.
Proof.
  intros Hf. unfold file_anchor, lower.
  assert (Hr : forallb (not_char nl) (str_replace (lit ".") (lit "-") f) = true)
    by (apply str_replace_aux_keep_free; [exact Hf|reflexivity]).
  induction (str_replace (lit ".") (lit "-") f) as [|c s IH]; [reflexivity|].
  cbn [map forallb] in Hr |- *. apply andb_true_iff in Hr as [Hc Hs].
  unfold not_char in Hc |- *. rewrite lower_char_nl, Hc. exact (IH Hs).
Qed.

Lemma anchor_nl_free (f : str) :
  forallb anchor_char f = true -> forallb (not_char nl) f = true.
Proof.
  induction f as [|c f IH]; [reflexivity|]. cbn [forallb].
  intros H. apply andb_true_iff in H as [Hc Hf]. by rewrite anchor_char_nl, IH.
Qed.

Lemma marker_line_nl_free (f : str) :
  forallb anchor_char f = true -> forallb (not_char nl) (marker_line f) = true.
Proof.
  intros Hf. pose proof (anchor_nl_free f Hf) as Hn.
  pose proof (file_anchor_nl_free f Hn) as Ha.
  unfold marker_line. rewrite !forallb_app, Hn, Ha. reflexivity.
Qed.

Lemma marker_line_shape (f : str) :
  marker_line f = "*"%char :: (lit "*=== FILE: " ++ f ++ lit " ===** {#" ++ file_anchor f)
                  ++ ["}"%char].
Proof. unfold marker_line. cbn [lit list_ascii_of_string app]. by rewrite <- !app_assoc. Qed.

Lemma presplit_line_closing (c : ascii) (m : str) :
  is_space c = false -> presplit_line (c :: m ++ ["}"%char]) = [c :: m ++ ["}"%char]].
Proof.
  intros Hc.
  assert (Hrev : rev (c :: m ++ ["}"%char]) = "}"%char :: rev (c :: m))
    by (rewrite app_comm_cons, rev_app_distr; reflexivity).
  assert (Hs : strip (c :: m ++ ["}"%char]) = c :: m ++ ["}"%char]).
  { unfold strip, lstrip, rstrip. cbn [dropWhile]. rewrite Hc, Hrev.
    cbn [dropWhile]. replace (is_space "}"%char) with false by reflexivity.
    rewrite <- Hrev. apply rev_involutive. }
  unfold presplit_line. rewrite Hs. unfold endswith. rewrite Hrev. reflexivity.
Qed.

Lemma file_marker_re_line (f : str) :
  f <> [] -> forallb anchor_char f = true -> file_marker_re (marker_line f) = Some f.
Proof.
  intros Hne Hf. unfold file_marker_re, marker_line.
  rewrite expects_app. cbn [mbind option_bind].
  replace (lit " ===** {#" ++ file_anchor f ++ lit "}")
    with (" "%char :: (lit "===** {#" ++ file_anchor f ++ lit "}")) by reflexivity.
  rewrite (span1_app_stop _ _ _ " "%char Hne Hf eq_refl). cbn [mbind option_bind].
  replace (" "%char :: lit "===** {#" ++ file_anchor f ++ lit "}")
    with (lit " ===**" ++ (lit " {#" ++ file_anchor f ++ lit "}")) by reflexivity.
  by rewrite expects_app.
Qed.

Lemma file_markers_nl (y : str) : file_markers (nl :: y) = file_markers y.
Proof. exact (file_markers_app [] y). Qed.

Lemma file_markers_marker_line (f : str) :
  f <> [] -> forallb anchor_char f = true -> file_markers (marker_line f) = [f].
Proof.
  intros Hne Hf. unfold file_markers, presplit.
  rewrite (str_split_nosep nl _ (marker_line_nl_free f Hf)). cbn [flat_map].
  rewrite marker_line_shape, presplit_line_closing by reflexivity.
  rewrite <- marker_line_shape. cbn [app].
  assert (Hre : re_find file_marker_re (marker_line f) = Some f).
  { rewrite marker_line_shape. cbn [re_find]. rewrite <- marker_line_shape.
    by rewrite file_marker_re_line. }
  change (omap (re_find file_marker_re) [marker_line f])
    with (match re_find file_marker_re (marker_line f) with
          | Some y => [y] | None => [] end).
  by rewrite Hre.
Qed.

Lemma export_header_app (f y : str) :
  f <> [] -> forallb anchor_char f = true ->
  file_markers (export_header f ++ y) = f :: file_markers y.
Proof.
  intros Hne Hf. unfold export_header.
  replace (([nl; nl] ++ marker_line f ++ [nl; nl]) ++ y)
    with (nl :: nl :: (marker_line f ++ nl :: (nl :: y))) by (by rewrite <- !app_assoc).
  rewrite !file_markers_nl, file_markers_app, file_markers_nl.
  by rewrite file_markers_marker_line.
Qed.

(** X13: the header [export_docx.main] writes before a unit whose name is
    made of the characters of [[\w.-]] is read by the import as exactly one
    file marker, naming that unit. *)
Theorem export_header_marker (filename : str) :
  filename <> [] -> forallb anchor_char filename = true ->
  file_markers (export_header filename) = [filename].
Proof.
  intros Hne Hf. rewrite <- (app_nil_r (export_header filename)).
  rewrite export_header_app by assumption. reflexivity.
Qed.

Lemma export_header_marker_witness :
  file_markers (export_header (lit "intro-1.md")) = [lit "intro-1.md"].
Proof. apply export_header_marker; [discriminate|reflexivity]. Defined.

Lemma export_combined_markers (read : str -> option str) (files : list str) (md : str) :
  export_combined read files = Some md ->
  Forall (fun f => f <> [] /\ forallb anchor_char f = true) files ->
  (forall f c, In f files -> read (unit_path f) = Some c ->
               file_markers (export_unit f c) = []) ->
  file_markers md = files /\ (md = [] \/ exists m, md = nl :: m).
Proof.
  revert md; induction files as [|f files IH]; intros md Hmd Hok Hbody; cbn [export_combined] in Hmd.
  - injection Hmd as <-. split; [reflexivity|by left].
  - destruct (read (unit_path f)) as [c|] eqn:Hc; [|discriminate].
    cbn [mbind option_bind] in Hmd.
    destruct (export_combined read files) as [rest|] eqn:Hrest; [|discriminate].
    cbn [mbind option_bind] in Hmd.
    assert (Hmd' : md = export_header f ++ export_unit f c ++ rest) by congruence.
    subst md. clear Hmd.
    inversion Hok as [|? ? [Hne Hf] Hok']; subst.
    destruct (IH rest eq_refl Hok' (fun g d Hg => Hbody g d (or_intror Hg)))
      as [Hm Hshape].
    split; [|right; eexists; reflexivity].
    rewrite export_header_app by assumption. f_equal.
    pose proof (Hbody f c (or_introl eq_refl) Hc) as Hb.
    destruct Hshape as [->|[m ->]].
    + rewrite app_nil_r, Hb, <- Hm. reflexivity.
    + rewrite file_markers_app, Hb. rewrite <- Hm. symmetry. apply file_markers_nl.
Qed.

(** X14: when every unit is read and no exported unit text itself holds a
    file marker, importing the markdown [export_docx.main] assembles
    (without the DOCX conversion in between) gives back exactly the units
    of [FILES], in their order. *)
Theorem export_import_units (read : str -> option str) (md : str) :
  export_combined read FILES = Some md ->
  (forall f c, In f FILES -> read (unit_path f) = Some c ->
               file_markers (export_unit f c) = []) ->
  option_map (map fst) (process_content md) = Some FILES.
Proof.
  intros Hmd Hbody.
  assert (Hok : Forall (fun f => f <> [] /\ forallb anchor_char f = true) FILES).
  { repeat constructor; discriminate. }
  destruct (export_combined_markers read FILES md Hmd Hok Hbody) as [Hm _].
  rewrite process_content_keys, Hm. reflexivity.
Qed.

Lemma export_import_units_witness :
  option_map (map fst)
    (process_content (default [] (export_combined (fun _ => Some (lit "Some text")) FILES)))
  = Some FILES.
Proof.
  apply (export_import_units (fun _ => Some (lit "Some text"))).
  - vm_compute. reflexivity.
  - intros f c Hf Hc. injection Hc as <-.
    repeat destruct Hf as [<-|Hf]; [vm_compute; reflexivity ..|destruct Hf].
Defined.

(** ** unindent_blocks outside any block *)

Lemma str_join_cons_char (c : ascii) (w : str) (ws : list str) :
  str_join [nl] ((c :: w) :: ws) = c :: str_join [nl] (w :: ws).
Proof. by destruct ws. Qed.

Lemma str_join_split (s : str) : str_join [nl] (str_split nl s) = s.
Proof.
  induction s as [|c s IH]; [done|]. cbn [str_split].
  destruct (Ascii.eqb c nl) eqn:E.
  - apply Ascii.eqb_eq in E. subst c.
    pose proof (str_split_nonempty nl s) as Hne.
    destruct (str_split nl s) as [|w ws] eqn:Es; [done|].
    cbn [str_join]. by rewrite <- IH.
  - pose proof (str_split_nonempty nl s) as Hne.
    destruct (str_split nl s) as [|w ws] eqn:Es; [done|].
    rewrite str_join_cons_char. by rewrite IH.
Qed.

Lemma unindent_step_plain (new_lines : list str) (line : str) :
  is_block_start line = false -> is_block_end line = false ->
  unindent_step (0%Z, new_lines) line
  = (0%Z, new_lines ++ (if metadata_line (strip line) then [line; []] else [line])).
Proof.
  intros Hs He. unfold unindent_step. rewrite Hs, He. cbv zeta.
  replace (0 * 4)%Z with (Z.of_nat 0 * 4)%Z by reflexivity.
  rewrite (unindent_indent_test 0 line).
  replace (startswith line (repeat " "%char (4 * 0))) with true by (destruct line; reflexivity).
  replace (slice_from line (Z.of_nat 0 * 4)) with line
    by (unfold slice_from, py_index; simpl; by rewrite drop_0). fold (metadata_line (strip line)).
  by destruct (metadata_line (strip line)).
Qed.

Lemma unindent_fold_plain (lines new_lines : list str) :
  forallb (fun l => negb (is_block_start l) && negb (is_block_end l)) lines = true ->
  fold_left unindent_step lines (0%Z, new_lines)
  = (0%Z, new_lines ++ flat_map (fun l => if metadata_line (strip l) then [l; []] else [l]) lines).
Proof.
  revert new_lines; induction lines as [|l ls IH]; intros new_lines H.
  - simpl. by rewrite app_nil_r.
  - cbn [forallb] in H. apply andb_prop in H as [Hl H].
    apply andb_prop in Hl as [Hs He]. apply negb_true_iff in Hs, He.
    cbn [fold_left]. rewrite unindent_step_plain by done.
    rewrite IH by done. cbn [flat_map]. by rewrite app_assoc.
Qed.

(** X15 (unindent_blocks): when no line of the content opens or closes a
    [///] block, [unindent_blocks] keeps every line as it is, indentation
    included, and adds one blank line after each metadata or checkbox line
    (one whose stripped text starts with Qtype:Q, Qopen:Q, Q<inputQ, Q[cb-Q
    or Q[pledge_Q). *)
Theorem unindent_blocks_outside_blocks (content : str) :
  forallb (fun l => negb (is_block_start l) && negb (is_block_end l))
    (str_split nl content) = true ->
  unindent_blocks content
  = str_join [nl] (flat_map (fun l => if metadata_line (strip l) then [l; []] else [l])
                     (str_split nl content)).
Proof.
  intros H. unfold unindent_blocks, unindent_run.
  by rewrite (unindent_fold_plain _ [] H).
Qed.

Lemma unindent_blocks_outside_blocks_witness :
  let content := lit "  indented" ++ nl :: lit "type: radio" in
  forallb (fun l => negb (is_block_start l) && negb (is_block_end l))
    (str_split nl content) = true
  /\ unindent_blocks content
     = str_join [nl] (flat_map (fun l => if metadata_line (strip l) then [l; []] else [l])
                        (str_split nl content)).
Proof.
  cbv zeta. split; [vm_compute; reflexivity|].
  apply unindent_blocks_outside_blocks. vm_compute. reflexivity.
Defined.

(** X16 (unindent_blocks): text with no [///] block line and no metadata or
    checkbox line passes through [unindent_blocks] unchanged. *)
Theorem unindent_blocks_plain_text (content : str) :
  forallb (fun l => negb (is_block_start l) && negb (is_block_end l)
                    && negb (metadata_line (strip l))) (str_split nl content) = true ->
  unindent_blocks content = content.
Proof.
  intros H. unfold unindent_blocks, unindent_run.
  rewrite unindent_fold_plain.
  - cbn [snd app].
    transitivity (str_join [nl] (str_split nl content)); [|apply str_join_split].
    f_equal. induction (str_split nl content) as [|l ls IH]; [done|].
    cbn [forallb] in H. apply andb_prop in H as [Hl H].
    apply andb_prop in Hl as [_ Hm]. apply negb_true_iff in Hm.
    cbn [flat_map]. rewrite Hm, IH by done. reflexivity.
  - induction (str_split nl content) as [|l ls IH]; [done|].
    cbn [forallb] in *. apply andb_prop in H as [Hl H].
    apply andb_prop in Hl as [Hl _].
    apply andb_true_intro. split; [exact Hl | by apply IH].
Qed.

Lemma unindent_blocks_plain_text_witness :
  let content := lit "  indented" ++ nl :: lit "plain text" in
  forallb (fun l => negb (is_block_start l) && negb (is_block_end l)
                    && negb (metadata_line (strip l))) (str_split nl content) = true
  /\ unindent_blocks content = content.
Proof.
  cbv zeta. split; [vm_compute; reflexivity|].
  apply unindent_blocks_plain_text. vm_compute. reflexivity.
Defined.

(** ** build_anchor_map *)

Lemma amap_set_in (k v a f : str) (d : list (str * str)) :
  In (a, f) (amap_set k v d) -> (a = k /\ f = v) \/ In (a, f) d.
Proof.
  induction d as [|[k' v'] d IH]; cbn [amap_set].
  - intros [H|[]]. injection H as -> ->. auto.
  - destruct (str_eqb k k').
    + intros [H|H]; [injection H as -> ->; auto | right; now right].
    + intros [H|H]; [right; now left|].
      destruct (IH H) as [?|?]; [auto | right; now right].
Qed.

Lemma amap_fold_in (f a f' : str) (anchors : list str) (m : list (str * str)) :
  In (a, f') (fold_left (fun m anchor => amap_set anchor f m) anchors m) ->
  (f' = f /\ In a anchors) \/ In (a, f') m.
Proof.
  revert m; induction anchors as [|x xs IH]; intros m H; cbn [fold_left] in H; [auto|].
  destruct (IH _ H) as [[-> Ha]|Hm].
  - left. split; [done | now right].
  - destruct (amap_set_in _ _ _ _ _ Hm) as [[-> ->]|Hm']; [left; split; [done | now left]|auto].
Qed.

Lemma anchor_step_inv (seen : list str) (st : list (str * str) * option str) (line : str) :
  anchor_inv seen st -> anchor_inv (seen ++ [line]) (anchor_step st line).
Proof.
  destruct st as [m cur]. intros [Hm Hc]. cbn [fst snd] in Hm, Hc.
  assert (Hold : forall a f, In (a, f) m ->
     exists pre l mid l' post, seen ++ [line] = pre ++ l :: mid ++ l' :: post
       /\ re_find file_marker_re l = Some f /\ unmarked mid
       /\ re_find file_marker_re l' = None /\ In a (anchor_findall l')).
  { intros a f H. destruct (Hm a f H) as (pre & l & mid & l' & post & Hs & ?).
    exists pre, l, mid, l', (post ++ [line]). split; [|done].
    rewrite Hs. by repeat (rewrite <- app_assoc || rewrite <- app_comm_cons). }
  unfold anchor_step. destruct (re_find file_marker_re line) as [f|] eqn:Ef.
  - split; cbn [fst snd]; [exact Hold|].
    intros f' H. injection H as <-. exists seen, line, []. split; [done|].
    split; [done | constructor].
  - destruct cur as [f|].
    2:{ split; cbn [fst snd]; [exact Hold | discriminate]. }
    destruct (Hc f eq_refl) as (pre & l & mid & Hs & Hl & Hmid).
    assert (Hcur' : exists pre l mid, seen ++ [line] = pre ++ l :: mid
          /\ re_find file_marker_re l = Some f /\ unmarked mid).
    { exists pre, l, (mid ++ [line]). rewrite Hs.
      repeat (rewrite <- app_assoc || rewrite <- app_comm_cons). split; [done|].
      split; [done|]. apply Forall_app. split; [done | by constructor]. }
    destruct (truthy f).
    + split; cbn [fst snd].
      * intros a f' H. destruct (amap_fold_in _ _ _ _ _ H) as [[-> Ha]|H'].
        -- exists pre, l, mid, line, []. rewrite Hs.
           repeat (rewrite <- app_assoc || rewrite <- app_comm_cons). auto.
        -- exact (Hold a f' H').
      * intros f' H. injection H as <-. exact Hcur'.
    + split; cbn [fst snd]; [exact Hold|].
      intros f' H. injection H as <-. exact Hcur'.
Qed.

Lemma anchor_fold_inv (lines seen : list str) (st : list (str * str) * option str) :
  anchor_inv seen st -> anchor_inv (seen ++ lines) (fold_left anchor_step lines st).
Proof.
  revert seen st; induction lines as [|l ls IH]; intros seen st H; cbn [fold_left].
  - by rewrite app_nil_r.
  - replace (seen ++ l :: ls) with ((seen ++ [l]) ++ ls) by (by rewrite <- app_assoc).
    apply IH. by apply anchor_step_inv.
Qed.

Lemma anchor_fold_unmarked (lines : list str) (m : list (str * str)) :
  Forall (fun l => re_find file_marker_re l = None) lines ->
  fold_left anchor_step lines (m, None) = (m, None).
Proof.
  revert m; induction lines as [|l ls IH]; intros m H; [done|].
  apply Forall_cons in H as [Hl H]. cbn [fold_left].
  unfold anchor_step at 2. rewrite Hl. by apply IH.
Qed.

(** X17 (build_anchor_map): every entry [(a, f)] of the anchor map comes
    from a line of the content that has the anchor [{#a}] and is not a
    file-marker line, and [f] is the file named by the nearest file-marker
    line above that line. *)
Theorem build_anchor_map_entry (content a f : str) :
  In (a, f) (build_anchor_map content) ->
  exists pre l mid l' post, str_split nl content = pre ++ l :: mid ++ l' :: post
    /\ re_find file_marker_re l = Some f /\ unmarked mid
    /\ re_find file_marker_re l' = None /\ In a (anchor_findall l').
Proof.
  intros H.
  assert (Hi : anchor_inv ([] ++ str_split nl content)
                 (fold_left anchor_step (str_split nl content) ([], None))).
  { apply anchor_fold_inv. split; cbn [fst snd]; [intros ? ? []|discriminate]. }
  destruct Hi as [Hi _]. exact (Hi a f H).
Qed.

Lemma build_anchor_map_entry_witness :
  let content := lit "**=== FILE: a.md ===**" ++ nl :: lit "## Title {#intro}" in
  In (lit "intro", lit "a.md") (build_anchor_map content)
  /\ exists pre l mid l' post, str_split nl content = pre ++ l :: mid ++ l' :: post
       /\ re_find file_marker_re l = Some (lit "a.md") /\ unmarked mid
       /\ re_find file_marker_re l' = None /\ In (lit "intro") (anchor_findall l').
Proof.
  cbv zeta. split; [vm_compute; left; reflexivity|].
  apply build_anchor_map_entry. vm_compute. left. reflexivity.
Defined.

(** X18 (build_anchor_map): lines before the first file-marker line
    contribute nothing: anchors there belong to no file and are left out. *)
Theorem build_anchor_map_preamble (pre content : str) :
  unmarked (str_split nl pre) ->
  build_anchor_map (pre ++ nl :: content) = build_anchor_map content.
Proof.
  intros H. unfold build_anchor_map.
  rewrite str_split_app_sep, fold_left_app, anchor_fold_unmarked by exact H.
  reflexivity.
Qed.

Lemma build_anchor_map_preamble_witness :
  unmarked (str_split nl (lit "Title {#top}"))
  /\ build_anchor_map (lit "Title {#top}" ++ nl :: lit "**=== FILE: a.md ===**")
     = build_anchor_map (lit "**=== FILE: a.md ===**").
Proof.
  split; [unfold unmarked; vm_compute; repeat constructor|].
  apply build_anchor_map_preamble. unfold unmarked. vm_compute. repeat constructor.
Defined.
